(** * Signature trie of the hidden-API flag checker

    Shallow embedding of [scripts/hiddenapi/signature_trie.py]: the key
    decomposer [signature_to_elements], insertion ([add]) and pattern lookup
    ([get_matching_rows]) over a tree of [InteriorNode]s and [Leaf]s. *)

From Stdlib Require Import String List Bool Arith Lia Permutation.
Import ListNotations.
Open Scope string_scope.
Open Scope list_scope.

(** ** Python string primitives *)

Module PyStr.

(** [s.startswith(p)] *)
Definition startswith (p s : string) : bool := String.prefix p s.

(** [s[n:]] *)
Fixpoint drop (n : nat) (s : string) : string :=
  match n, s with
  | O, _ => s
  | S _, EmptyString => EmptyString
  | S k, String _ s' => drop k s'
  end.

(** [s.removeprefix(p)] *)
Definition removeprefix (p s : string) : string :=
  if startswith p s then drop (String.length p) s else s.

(** [s.split(sep)] for a non-empty separator: the pieces between the
    non-overlapping occurrences of [sep], scanned from the left.  [skip]
    counts the characters of an occurrence still to be consumed. *)
Fixpoint split_from (sep : string) (skip : nat) (s : string) : list string :=
  match s with
  | EmptyString => [EmptyString]
  | String c s' =>
      match skip with
      | S k => split_from sep k s'
      | O =>
          if startswith sep s
          then EmptyString :: split_from sep (String.length sep - 1) s'
          else match split_from sep 0 s' with
               | piece :: pieces => String c piece :: pieces
               | [] => [String c EmptyString]
               end
      end
  end.

Definition split (sep s : string) : list string := split_from sep 0 s.

(** [s.partition(sep)]: the text before the first occurrence of [sep] and,
    when there is one, the text after it. *)
Fixpoint partition (sep : string) (s : string) : string * option string :=
  if startswith sep s then (EmptyString, Some (drop (String.length sep) s))
  else match s with
       | EmptyString => (EmptyString, None)
       | String c s' =>
           let '(before, after) := partition sep s' in (String c before, after)
       end.

End PyStr.

(** ** Exceptions and results *)

(** The three [Exception]s the module raises, named after the condition each
    message reports, Python's own [AttributeError] (a [Leaf] has no [nodes]),
    and [NoSuchObject], which belongs to the store below: a reference that
    names no node.  The last one is never raised by the module's operations
    (see [add_no_dangling] and [get_matching_rows_no_dangling]). *)
Inductive exn : Type :=
| MalformedPattern        (* "Invalid signature ...: contains wildcard ..." *)
| InvalidMemberSignature  (* "... does not identify a specific member" *)
| DuplicateSignature      (* "Duplicate signature: ..." *)
| AttributeError
| NoSuchObject.

Inductive outcome (A : Type) : Type :=
| Return (a : A)
| Raise (e : exn).
Arguments Return {A} a.
Arguments Raise {A} e.

(** ** The key decomposer *)

Definition is_wildcard (x : string) : bool := (x =? "*") || (x =? "**").

(** The qualified class path and the member pieces of a signature, as
    [signature_to_elements] computes them ([parts[0]] and [parts[1:]]). *)
Definition signature_text (signature : string) : string :=
  PyStr.removeprefix "L" signature.
Definition signature_parts (signature : string) : list string :=
  PyStr.split ";->" (signature_text signature).
Definition signature_member (signature : string) : list string :=
  tl (signature_parts signature).
Definition signature_class_name (signature : string) : string :=
  last (PyStr.split "/" (hd EmptyString (signature_parts signature))) EmptyString.

Definition signature_to_elements (signature : string) : outcome (list string) :=
  let text := PyStr.removeprefix "L" signature in
  let parts := PyStr.split ";->" text in
  let member := tl parts in
  let elements := PyStr.split "/" (hd EmptyString parts) in
  let packages := removelast elements in
  let class_name := last elements EmptyString in
  if is_wildcard class_name then
    if negb (length member =? 0)%nat then Raise MalformedPattern
    else
      let wildcard := [class_name] in
      Return (map (append "package:") packages ++ wildcard)
  else
    let classes := PyStr.split "$" class_name in
    Return (map (append "package:") packages
              ++ map (append "class:") classes
              ++ map (append "member:") member).

(** What [signature_to_elements] builds from the qualified class path
    [parts[0]] and the member pieces [parts[1:]]. *)
Definition assemble (class_path : string) (member : list string)
  : outcome (list string) :=
  let elements := PyStr.split "/" class_path in
  let packages := removelast elements in
  let class_name := last elements EmptyString in
  if is_wildcard class_name then
    if negb (length member =? 0)%nat then Raise MalformedPattern
    else Return (map (append "package:") packages ++ [class_name])
  else
    let classes := PyStr.split "$" class_name in
    Return (map (append "package:") packages
              ++ map (append "class:") classes
              ++ map (append "member:") member).

(** The decomposer as the specification words it: the text is split once,
    at the first ";->", and what follows is one member signature. *)
Definition decompose_split_once (signature : string) : outcome (list string) :=
  let text := PyStr.removeprefix "L" signature in
  let '(class_path, remainder) := PyStr.partition ";->" text in
  assemble class_path (match remainder with Some m => [m] | None => [] end).

(** [sep.join(pieces)] *)
Fixpoint join (sep : string) (pieces : list string) : string :=
  match pieces with
  | [] => EmptyString
  | [piece] => piece
  | piece :: rest => (piece ++ sep ++ join sep rest)%string
  end.

(** The text a decomposition comes from: packages and class-name component
    joined by "/", then the member pieces, each after a ";->". *)
Definition rebuild (packages : list string) (class_name : string)
    (member : list string) : string :=
  join ";->" (join "/" (packages ++ [class_name]) :: member).


(** ** The trie *)

Section Trie.

Variable V : Type.

(** [InteriorNode.nodes] is a [dict]: keys are unique and keep their
    insertion order, which is the order [items()] yields them in. *)
#[warnings="-register-all"]
Inductive Node : Type :=
| InteriorNode (nodes : list (string * Node))
| Leaf (value : V).

Definition dict : Type := list (string * Node).

(** [d[key]] *)
Fixpoint dict_get (d : dict) (key : string) : option Node :=
  match d with
  | [] => None
  | (k, n) :: d' => if k =? key then Some n else dict_get d' key
  end.

(** [key in d] *)
Definition dict_contains (d : dict) (key : string) : bool :=
  match dict_get d key with Some _ => true | None => false end.

(** [d[key] = n]: an existing key keeps its place, a new one goes last. *)
Fixpoint dict_set (d : dict) (key : string) (n : Node) : dict :=
  match d with
  | [] => [(key, n)]
  | (k, n') :: d' =>
      if k =? key then (k, n) :: d' else (k, n') :: dict_set d' key n
  end.

(** *** The store

    The trie is a tree of objects owned by the root [InteriorNode]; a
    reference to one of them is the list of keys leading to it. *)
Definition ref : Type := list string.

Fixpoint deref (root : Node) (r : ref) : option Node :=
  match r with
  | [] => Some root
  | key :: r' =>
      match root with
      | InteriorNode nodes =>
          match dict_get nodes key with
          | Some child => deref child r'
          | None => None
          end
      | Leaf _ => None
      end
  end.

(** The store in which the object at [r] has become [n]. *)
Fixpoint store (root : Node) (r : ref) (n : Node) : Node :=
  match r with
  | [] => n
  | key :: r' =>
      match root with
      | InteriorNode nodes =>
          match dict_get nodes key with
          | Some child => InteriorNode (dict_set nodes key (store child r' n))
          | None => root
          end
      | Leaf _ => root
      end
  end.

(** State and exceptions: a raised exception keeps the store as it is at
    that point. *)
Definition M (A : Type) : Type := Node -> Node * outcome A.

Definition ret {A} (a : A) : M A := fun root => (root, Return a).
Definition raise {A} (e : exn) : M A := fun root => (root, Raise e).
Definition bind {A B} (c : M A) (k : A -> M B) : M B :=
  fun root =>
    match c root with
    | (root', Return a) => k a root'
    | (root', Raise e) => (root', Raise e)
    end.
Definition lift {A} (o : outcome A) : M A := fun root => (root, o).

Notation "x <- c ;; k" := (bind c (fun x => k))
  (at level 61, c at next level, right associativity).
Notation "c ;;; k" := (bind c (fun _ => k))
  (at level 61, right associativity).

(** [node.nodes], read *)
Definition get_nodes (node : ref) : M dict :=
  fun root =>
    match deref root node with
    | Some (InteriorNode nodes) => (root, Return nodes)
    | Some (Leaf _) => (root, Raise AttributeError)
    | None => (root, Raise NoSuchObject)
    end.

(** [element in node.nodes] *)
Definition nodes_contains (node : ref) (element : string) : M bool :=
  nodes <- get_nodes node ;;
  ret (dict_contains nodes element).

(** [node.nodes[element] = n] *)
Definition nodes_setitem (node : ref) (element : string) (n : Node) : M unit :=
  nodes <- get_nodes node ;;
  fun root => (store root node (InteriorNode (dict_set nodes element n)), Return tt).

(** [node.nodes[element]], for an [element] known to be a key *)
Definition nodes_getitem (node : ref) (element : string) : ref :=
  node ++ [element].

(** The object a reference names, for method dispatch. *)
Definition load (node : ref) : M Node :=
  fun root =>
    match deref root node with
    | Some n => (root, Return n)
    | None => (root, Raise NoSuchObject)
    end.

(** *** [InteriorNode.add] *)

(** [for element in elements[:-1]: ...] *)
Fixpoint add_walk (elements : list string) (node : ref) : M ref :=
  match elements with
  | [] => ret node
  | element :: rest =>
      present <- nodes_contains node element ;;
      if present then add_walk rest (nodes_getitem node element)
      else
        let next_node := InteriorNode [] in
        nodes_setitem node element next_node ;;;
        add_walk rest (nodes_getitem node element)
  end.

Definition add (signature : string) (value : V) : M unit :=
  elements <- lift (signature_to_elements signature) ;;
  node <- add_walk (removelast elements) [] ;;
  let last_element := last elements EmptyString in
  if negb (PyStr.startswith "member:" last_element)
  then raise InvalidMemberSignature
  else
    present <- nodes_contains node last_element ;;
    if present then raise DuplicateSignature
    else nodes_setitem node last_element (Leaf value).

(** *** [append_values] and [values] *)

Fixpoint append_values (node : Node) (values : list (list V))
    (selector : string -> bool) {struct node} : list (list V) :=
  match node with
  | InteriorNode nodes =>
      fold_left
        (fun values item =>
           if selector (fst item)
           then append_values (snd item) values (fun _ => true)
           else values)
        nodes values
  | Leaf value => values ++ [[value]]
  end.

Definition values (node : Node) (selector : string -> bool) : list (list V) :=
  match node with
  | InteriorNode _ => append_values node [] selector
  | Leaf value => [[value]]
  end.

(** *** [InteriorNode.get_matching_rows] *)

(** [for element in elements: ...], [None] standing for the early
    [return []]. *)
Fixpoint match_walk (elements : list string) (node : ref) : M (option ref) :=
  match elements with
  | [] => ret (Some node)
  | element :: rest =>
      present <- nodes_contains node element ;;
      if present then match_walk rest (nodes_getitem node element)
      else ret None
  end.

Definition select_all : string -> bool := fun _ => true.
Definition select_no_packages : string -> bool :=
  fun x => negb (PyStr.startswith "package:" x).

Definition get_matching_rows (pattern : string) : M (list V) :=
  elements <- lift (signature_to_elements pattern) ;;
  let last_element := last elements EmptyString in
  let '(elements, selector) :=
    if is_wildcard last_element then
      (removelast elements,
       if last_element =? "*" then select_no_packages else select_all)
    else (elements, select_all) in
  found <- match_walk elements [] ;;
  match found with
  | None => ret []
  | Some node =>
      n <- load node ;;
      ret (concat (values n selector))
  end.

(** [signature_trie()] *)
Definition signature_trie : Node := InteriorNode [].

(** ** The operations, by recursion on the subtree

    [add] and [get_matching_rows] walk references down from the root; each
    step only looks at the node the reference names.  [insert_rec] and
    [find_rec] say what the two walks do to, and find in, that node. *)

Definition add_from (elements : list string) (value : V) (start : ref) : M unit :=
  node <- add_walk (removelast elements) start ;;
  let last_element := last elements EmptyString in
  if negb (PyStr.startswith "member:" last_element)
  then raise InvalidMemberSignature
  else
    present <- nodes_contains node last_element ;;
    if present then raise DuplicateSignature
    else nodes_setitem node last_element (Leaf value).

Definition match_from (elements : list string) (selector : string -> bool)
    (start : ref) : M (list V) :=
  found <- match_walk elements start ;;
  match found with
  | None => ret []
  | Some node =>
      n <- load node ;;
      ret (concat (values n selector))
  end.

(** What is walked and collected for a decomposed pattern. *)
Definition walk_elements (elements : list string) : list string :=
  if is_wildcard (last elements EmptyString) then removelast elements else elements.
Definition pattern_selector (elements : list string) : string -> bool :=
  if is_wildcard (last elements EmptyString) then
    if last elements EmptyString =? "*" then select_no_packages else select_all
  else select_all.

(** The child [add]'s walk continues in: the one under [element], or the
    [InteriorNode] it has just created there. *)
Definition child_or_new (nodes : dict) (element : string) : Node :=
  match dict_get nodes element with
  | Some c => c
  | None => InteriorNode []
  end.

Definition insert_last (last_element : string) (value : V) (n : Node)
  : Node * outcome unit :=
  if negb (PyStr.startswith "member:" last_element)
  then (n, Raise InvalidMemberSignature)
  else match n with
       | Leaf _ => (n, Raise AttributeError)
       | InteriorNode nodes =>
           if dict_contains nodes last_element then (n, Raise DuplicateSignature)
           else (InteriorNode (dict_set nodes last_element (Leaf value)), Return tt)
       end.

Fixpoint insert_rec (elements : list string) (value : V) (n : Node)
  : Node * outcome unit :=
  match elements with
  | [] => (n, Raise InvalidMemberSignature)
  | element :: rest =>
      match rest with
      | [] => insert_last element value n
      | _ :: _ =>
          match n with
          | Leaf _ => (n, Raise AttributeError)
          | InteriorNode nodes =>
              let child := child_or_new nodes element in
              let '(child', r) := insert_rec rest value child in
              (InteriorNode (dict_set nodes element child'), r)
          end
      end
  end.

Fixpoint find_rec (elements : list string) (selector : string -> bool) (n : Node)
  : outcome (list V) :=
  match elements with
  | [] => Return (concat (values n selector))
  | element :: rest =>
      match n with
      | Leaf _ => Raise AttributeError
      | InteriorNode nodes =>
          match dict_get nodes element with
          | Some child => find_rec rest selector child
          | None => Return []
          end
      end
  end.

(** Every value stored at or below a node, in [items()] order. *)
Definition subtree_values (n : Node) : list V := concat (values n select_all).

(** What one [(key, child)] item contributes under a selector. *)
Definition item_values (selector : string -> bool) (item : string * Node) : list V :=
  if selector (fst item) then subtree_values (snd item) else [].

(** A client that calls [add] for every [(signature, value)] of [calls] in
    turn and carries on after an exception; besides the trie it ends with,
    the calls that returned normally. *)
Fixpoint add_all (calls : list (string * V)) (root : Node)
  : Node * list (string * V) :=
  match calls with
  | [] => (root, [])
  | (signature, value) :: calls' =>
      match add signature value root with
      | (root', Return _) =>
          let '(final, added) := add_all calls' root' in
          (final, (signature, value) :: added)
      | (root', Raise _) => add_all calls' root'
      end
  end.

(** Whether a lookup that walks [walked] and then collects under [selector]
    reaches the leaf stored along [elements]: the walk follows the elements
    and the selector is asked about the element after it, if there is
    one. *)
Fixpoint reaches (walked : list string) (selector : string -> bool)
    (elements : list string) : bool :=
  match walked, elements with
  | [], [] => true
  | [], element :: _ => selector element
  | _ :: _, [] => false
  | w :: walked', element :: elements' =>
      (w =? element) && reaches walked' selector elements'
  end.

Definition call_reached (walked : list string) (selector : string -> bool)
    (call : string * V) : bool :=
  match signature_to_elements (fst call) with
  | Return elements => reaches walked selector elements
  | Raise _ => false
  end.

Definition is_leaf (n : Node) : bool :=
  match n with Leaf _ => true | InteriorNode _ => false end.

(** Leaves hang under member keys only. *)
Fixpoint well_tagged (n : Node) : bool :=
  match n with
  | Leaf _ => true
  | InteriorNode nodes =>
      forallb
        (fun item =>
           (negb (is_leaf (snd item)) || PyStr.startswith "member:" (fst item))
           && well_tagged (snd item))
        nodes
  end.

Definition tagged_item (item : string * Node) : bool :=
  (negb (is_leaf (snd item)) || PyStr.startswith "member:" (fst item))
  && well_tagged (snd item).

Definition not_member (element : string) : Prop :=
  PyStr.startswith "member:" element = false.

(** Induction on a node with the hypothesis for every child. *)
Fixpoint Node_children_ind (P : Node -> Prop)
    (Hleaf : forall value, P (Leaf value))
    (Hinterior : forall nodes, Forall (fun item => P (snd item)) nodes ->
                               P (InteriorNode nodes))
    (n : Node) {struct n} : P n :=
  match n with
  | Leaf value => Hleaf value
  | InteriorNode nodes =>
      Hinterior nodes
        ((fix children (items : list (string * Node)) :
            Forall (fun item => P (snd item)) items :=
            match items with
            | [] => Forall_nil _
            | item :: items' =>
                Forall_cons item
                  (Node_children_ind P Hleaf Hinterior (snd item))
                  (children items')
            end) nodes)
  end.

(** A trie with one signature in it. *)
Definition example_trie (value : V) : Node :=
  fst (add "La/B;->m" value signature_trie).

(** The nodes the first [add] makes for [elements], one inside the other
    with the leaf innermost, as drawn in the docstring of [InteriorNode]. *)
Fixpoint path_nodes (elements : list string) (value : V) : Node :=
  match elements with
  | [] => Leaf value
  | element :: rest => InteriorNode [(element, path_nodes rest value)]
  end.

(** The same without a leaf: interior nodes only, the innermost empty. *)
Fixpoint empty_nodes (elements : list string) : Node :=
  match elements with
  | [] => InteriorNode []
  | element :: rest => InteriorNode [(element, empty_nodes rest)]
  end.


(** What [add] may do to a node [m] that is in the trie: nothing to a leaf,
    and an interior node stays one. *)
Definition kept (m m' : Node) : Prop :=
  match m with
  | Leaf x => m' = Leaf x
  | InteriorNode _ => is_leaf m' = false
  end.

(** Leaves under member keys and nothing else under them: what the trie
    looks like as long as no signature has more than one member part. *)
Fixpoint strictly_tagged (n : Node) : bool :=
  match n with
  | Leaf _ => true
  | InteriorNode nodes =>
      forallb
        (fun item =>
           Bool.eqb (is_leaf (snd item)) (PyStr.startswith "member:" (fst item))
           && strictly_tagged (snd item))
        nodes
  end.

Definition strict_item (item : string * Node) : bool :=
  Bool.eqb (is_leaf (snd item)) (PyStr.startswith "member:" (fst item))
  && strictly_tagged (snd item).

(** At most one ";->" in the signature of a call. *)
Definition one_separator (call : string * V) : Prop :=
  (length (signature_member (fst call)) <= 1)%nat.


(** ** Splitting *)

Lemma split_from_skip sep k :
  forall s, PyStr.split_from sep k s = PyStr.split_from sep 0 (PyStr.drop k s).
Proof.
  induction k as [|k IH]; intros s.
  - now destruct s.
  - destruct s as [|c s']; simpl; auto.
Qed.

Lemma split_from_not_nil sep s : forall k, PyStr.split_from sep k s <> [].
Proof.
  induction s as [|c s' IH]; intros k; cbn [PyStr.split_from]; [discriminate|].
  destruct k; [|apply IH].
  destruct (PyStr.startswith sep (String c s')); [discriminate|].
  destruct (PyStr.split_from sep 0 s'); discriminate.
Qed.

(** [split] cuts at the first occurrence and goes on with what follows. *)
Lemma split_partition sep s :
  sep <> EmptyString ->
  PyStr.split sep s =
  match PyStr.partition sep s with
  | (before, None) => [before]
  | (before, Some after) => before :: PyStr.split sep after
  end.
Proof.
  intros Hsep. unfold PyStr.split.
  induction s as [|c s' IH].
  - destruct sep; [now elim Hsep | reflexivity].
  - cbn [PyStr.split_from PyStr.partition].
    destruct (PyStr.startswith sep (String c s')) eqn:E.
    + f_equal. rewrite split_from_skip.
      destruct sep as [|a sep']; [now elim Hsep|].
      simpl. now rewrite Nat.sub_0_r.
    + rewrite IH. destruct (PyStr.partition sep s') as [before [after|]]; reflexivity.
Qed.

(** [parts[0]], [elements[-1]] and, in [add] and [get_matching_rows],
    [elements[-1]] again are taken from lists that are never empty. *)
Lemma signature_parts_not_nil signature : signature_parts signature <> [].
Proof. apply split_from_not_nil. Qed.

Lemma signature_to_elements_not_nil signature elements :
  signature_to_elements signature = Return elements -> elements <> [].
Proof.
  unfold signature_to_elements. cbv zeta.
  destruct (is_wildcard _).
  - destruct (negb _); [discriminate|]. intros [= <-] H.
    apply app_eq_nil in H. destruct H as [_ [=]].
  - intros [= <-] H.
    apply app_eq_nil in H. destruct H as [_ H].
    apply app_eq_nil in H. destruct H as [H _].
    apply map_eq_nil in H. revert H. apply split_from_not_nil.
Qed.

Lemma signature_to_elements_assemble signature :
  signature_to_elements signature =
  assemble (hd EmptyString (signature_parts signature)) (signature_member signature).
Proof. reflexivity. Qed.

(** ** Dictionaries and the store *)

Lemma dict_get_set_same (d : dict) k n : dict_get (dict_set d k n) k = Some n.
Proof.
  induction d as [|[k' n'] d IH]; simpl.
  - now rewrite String.eqb_refl.
  - destruct (k' =? k) eqn:E; simpl; rewrite E; auto.
Qed.

Lemma dict_get_set_other (d : dict) k k' n :
  k <> k' -> dict_get (dict_set d k n) k' = dict_get d k'.
Proof.
  intros Hne. induction d as [|[k0 n0] d IH]; simpl.
  - destruct (k =? k') eqn:E; auto. apply String.eqb_eq in E. contradiction.
  - destruct (k0 =? k) eqn:E; simpl.
    + apply String.eqb_eq in E. subst k0.
      destruct (k =? k') eqn:E'; auto.
      apply String.eqb_eq in E'. contradiction.
    + now rewrite IH.
Qed.

Lemma dict_set_set (d : dict) k a b :
  dict_set (dict_set d k a) k b = dict_set d k b.
Proof.
  induction d as [|[k' n'] d IH]; simpl.
  - now rewrite String.eqb_refl.
  - destruct (k' =? k) eqn:E; simpl; rewrite E; auto. now rewrite IH.
Qed.

Lemma dict_set_get_id (d : dict) k n : dict_get d k = Some n -> dict_set d k n = d.
Proof.
  induction d as [|[k' n'] d IH]; simpl; [discriminate|].
  destruct (k' =? k) eqn:E.
  - now intros [= ->].
  - intros H. now rewrite IH.
Qed.

(** A key that is absent is appended. *)
Lemma dict_set_new (d : dict) k n : dict_get d k = None -> dict_set d k n = d ++ [(k, n)].
Proof.
  induction d as [|[k' n'] d IH]; simpl; auto.
  destruct (k' =? k); [discriminate|]. intros H. now rewrite IH.
Qed.

(** A key that is present is replaced where it stands. *)
Lemma dict_set_old (d : dict) k n c :
  dict_get d k = Some c ->
  exists d1 d2, d = d1 ++ (k, c) :: d2 /\ dict_set d k n = d1 ++ (k, n) :: d2
                /\ dict_get d1 k = None.
Proof.
  induction d as [|[k' n'] d IH]; simpl; [discriminate|].
  destruct (k' =? k) eqn:E.
  - intros [= ->]. apply String.eqb_eq in E. subst k'.
    now exists [], d.
  - intros H. destruct (IH H) as (d1 & d2 & -> & -> & Hd1).
    exists ((k', n') :: d1), d2. simpl. now rewrite E.
Qed.

Lemma deref_app root p q :
  deref root (p ++ q) =
  match deref root p with Some n => deref n q | None => None end.
Proof.
  revert root. induction p as [|k p IH]; intros root; simpl; auto.
  destruct root as [nodes|]; auto.
  destruct (dict_get nodes k); auto.
Qed.

Lemma store_deref_id root p n : deref root p = Some n -> store root p n = root.
Proof.
  revert root. induction p as [|k p IH]; intros root; simpl.
  - now intros [= ->].
  - destruct root as [nodes|]; auto.
    destruct (dict_get nodes k) as [c|] eqn:E; auto.
    intros H. rewrite (IH _ H). now rewrite dict_set_get_id.
Qed.

Lemma deref_store root p m n : deref root p = Some m -> deref (store root p n) p = Some n.
Proof.
  revert root. induction p as [|k p IH]; intros root; simpl; auto.
  destruct root as [nodes|]; [|discriminate].
  destruct (dict_get nodes k) as [c|] eqn:E; [|discriminate].
  intros H. simpl. rewrite dict_get_set_same. eauto.
Qed.

Lemma store_store root p m a b :
  deref root p = Some m -> store (store root p a) p b = store root p b.
Proof.
  revert root. induction p as [|k p IH]; intros root; simpl; auto.
  destruct root as [nodes|]; [|discriminate].
  destruct (dict_get nodes k) as [c|] eqn:E; [|discriminate].
  intros H. simpl. rewrite dict_get_set_same, dict_set_set. now rewrite (IH _ H).
Qed.

Lemma store_app root p q m n :
  deref root p = Some m -> store root (p ++ q) n = store root p (store m q n).
Proof.
  revert root. induction p as [|k p IH]; intros root; simpl.
  - now intros [= ->].
  - destruct root as [nodes|]; [|discriminate].
    destruct (dict_get nodes k) as [c|] eqn:E; [|discriminate].
    intros H. now rewrite (IH _ H).
Qed.

(** ** The two walks and their recursive forms *)

Lemma add_unfold signature value root :
  add signature value root =
  match signature_to_elements signature with
  | Return elements => add_from elements value [] root
  | Raise e => (root, Raise e)
  end.
Proof.
  unfold add, add_from, bind, lift.
  destruct (signature_to_elements signature); reflexivity.
Qed.

Lemma get_matching_rows_unfold pattern root :
  get_matching_rows pattern root =
  match signature_to_elements pattern with
  | Return elements =>
      match_from (walk_elements elements) (pattern_selector elements) [] root
  | Raise e => (root, Raise e)
  end.
Proof.
  unfold get_matching_rows, match_from, walk_elements, pattern_selector, bind, lift.
  destruct (signature_to_elements pattern) as [elements|e]; [|reflexivity].
  destruct (is_wildcard (last elements EmptyString)); reflexivity.
Qed.

Lemma add_from_cons e e' rest value p root :
  add_from (e :: e' :: rest) value p root =
  (present <- nodes_contains p e ;;
   if present then add_from (e' :: rest) value (nodes_getitem p e)
   else nodes_setitem p e (InteriorNode []) ;;;
        add_from (e' :: rest) value (nodes_getitem p e)) root.
Proof.
  unfold add_from.
  change (removelast (e :: e' :: rest)) with (e :: removelast (e' :: rest)).
  change (last (e :: e' :: rest) EmptyString) with (last (e' :: rest) EmptyString).
  simpl add_walk. unfold bind.
  destruct (nodes_contains p e root) as [root1 [[|]|x]]; try reflexivity.
  destruct (nodes_setitem p e (InteriorNode []) root1) as [root2 [[]|x]]; reflexivity.
Qed.

Lemma insert_rec_cons e e' rest value n :
  insert_rec (e :: e' :: rest) value n =
  match n with
  | Leaf _ => (n, Raise AttributeError)
  | InteriorNode nodes =>
      let child := child_or_new nodes e in
      (InteriorNode (dict_set nodes e (fst (insert_rec (e' :: rest) value child))),
       snd (insert_rec (e' :: rest) value child))
  end.
Proof.
  destruct n as [nodes|x]; [|reflexivity].
  set (child := child_or_new nodes e).
  change (insert_rec (e :: e' :: rest) value (InteriorNode nodes)) with
    (let '(child', r) := insert_rec (e' :: rest) value child in
     (InteriorNode (dict_set nodes e child'), r)).
  cbv zeta. destruct (insert_rec (e' :: rest) value child); reflexivity.
Qed.

Lemma add_from_rec elements value :
  forall p root n,
    deref root p = Some n ->
    add_from elements value p root =
    (store root p (fst (insert_rec elements value n)),
     snd (insert_rec elements value n)).
Proof.
  induction elements as [|e rest IH]; intros p root n Hp.
  - unfold add_from, bind, raise, ret. simpl.
    now rewrite (store_deref_id _ _ _ Hp).
  - destruct rest as [|e' rest'].
    + unfold add_from, bind, raise, ret. simpl.
      unfold insert_last.
      destruct (negb (PyStr.startswith "member:" e)); simpl.
      { now rewrite (store_deref_id _ _ _ Hp). }
      unfold nodes_contains, nodes_setitem, get_nodes, bind, ret. rewrite Hp.
      destruct n as [nodes|x]; simpl.
      * destruct (dict_contains nodes e); simpl.
        { now rewrite (store_deref_id _ _ _ Hp). }
        now rewrite Hp.
      * now rewrite (store_deref_id _ _ _ Hp).
    + rewrite add_from_cons, insert_rec_cons.
      unfold bind, nodes_contains, nodes_setitem, get_nodes, bind, ret, nodes_getitem.
      rewrite Hp.
      destruct n as [nodes|x]; simpl.
      2:{ now rewrite (store_deref_id _ _ _ Hp). }
      unfold dict_contains, child_or_new.
      destruct (dict_get nodes e) as [c|] eqn:Ee.
      * assert (Hc : deref root (p ++ [e]) = Some c).
        { rewrite deref_app, Hp. simpl. now rewrite Ee. }
        rewrite (IH _ root c Hc).
        rewrite (store_app _ _ [e] _ _ Hp). simpl. now rewrite Ee.
      * rewrite Hp.
        set (created := InteriorNode (dict_set nodes e (InteriorNode []))).
        set (root1 := store root p created).
        assert (Hp1 : deref root1 p = Some created).
        { unfold root1. eapply deref_store; eauto. }
        assert (Hc : deref root1 (p ++ [e]) = Some (InteriorNode [])).
        { rewrite deref_app, Hp1. simpl. now rewrite dict_get_set_same. }
        rewrite (IH _ root1 _ Hc).
        rewrite (store_app _ _ [e] _ _ Hp1). simpl.
        rewrite dict_get_set_same, dict_set_set.
        unfold root1. now rewrite (store_store _ _ _ _ _ Hp).
Qed.

Lemma match_from_cons e rest selector p root :
  match_from (e :: rest) selector p root =
  (present <- nodes_contains p e ;;
   if present then match_from rest selector (nodes_getitem p e)
   else ret []) root.
Proof.
  unfold match_from. simpl match_walk. unfold bind.
  destruct (nodes_contains p e root) as [root1 [[|]|x]]; reflexivity.
Qed.

Lemma match_from_rec elements selector :
  forall p root n,
    deref root p = Some n ->
    match_from elements selector p root = (root, find_rec elements selector n).
Proof.
  induction elements as [|e rest IH]; intros p root n Hp.
  - unfold match_from, bind, ret, load. simpl. now rewrite Hp.
  - rewrite match_from_cons.
    unfold bind, nodes_contains, get_nodes, bind, ret, nodes_getitem.
    rewrite Hp.
    destruct n as [nodes|x]; simpl; auto.
    unfold dict_contains.
    destruct (dict_get nodes e) as [c|] eqn:Ee; auto.
    apply IH. rewrite deref_app, Hp. simpl. now rewrite Ee.
Qed.

Theorem add_spec signature value root :
  add signature value root =
  match signature_to_elements signature with
  | Return elements => insert_rec elements value root
  | Raise e => (root, Raise e)
  end.
Proof.
  rewrite add_unfold. destruct (signature_to_elements signature) as [els|e]; auto.
  rewrite (add_from_rec els value [] root root eq_refl). simpl.
  now destruct (insert_rec els value root).
Qed.

Theorem get_matching_rows_spec pattern root :
  get_matching_rows pattern root =
  match signature_to_elements pattern with
  | Return elements =>
      (root, find_rec (walk_elements elements) (pattern_selector elements) root)
  | Raise e => (root, Raise e)
  end.
Proof.
  rewrite get_matching_rows_unfold.
  destruct (signature_to_elements pattern) as [els|e]; auto.
  now apply match_from_rec.
Qed.

(** Neither operation follows a reference that names no node. *)
Lemma insert_rec_no_dangling elements value :
  forall n, snd (insert_rec elements value n) <> Raise NoSuchObject.
Proof.
  induction elements as [|e rest IH]; intros n; [simpl; discriminate|].
  destruct rest as [|e' rest'].
  - simpl. unfold insert_last.
    destruct (negb (PyStr.startswith "member:" e)); simpl; [discriminate|].
    destruct n as [nodes|x]; simpl; [|discriminate].
    destruct (dict_contains nodes e); simpl; discriminate.
  - rewrite insert_rec_cons. destruct n as [nodes|x]; simpl; [|discriminate].
    apply IH.
Qed.

Lemma find_rec_no_dangling elements selector :
  forall n, find_rec elements selector n <> Raise NoSuchObject.
Proof.
  induction elements as [|e rest IH]; intros n; simpl; [discriminate|].
  destruct n as [nodes|x]; [|discriminate].
  destruct (dict_get nodes e); [apply IH | discriminate].
Qed.

Lemma add_no_dangling signature value root :
  snd (add signature value root) <> Raise NoSuchObject.
Proof.
  rewrite add_spec. destruct (signature_to_elements signature) as [els|e] eqn:E.
  - apply insert_rec_no_dangling.
  - simpl. intros [= ->]. revert E. unfold signature_to_elements.
    repeat match goal with |- context [if ?b then _ else _] => destruct b end;
      discriminate.
Qed.

Lemma get_matching_rows_no_dangling pattern root :
  snd (get_matching_rows pattern root) <> Raise NoSuchObject.
Proof.
  rewrite get_matching_rows_spec.
  destruct (signature_to_elements pattern) as [els|e] eqn:E; simpl.
  - apply find_rec_no_dangling.
  - intros [= ->]. revert E. unfold signature_to_elements.
    repeat match goal with |- context [if ?b then _ else _] => destruct b end;
      discriminate.
Qed.

(** ** Collected values *)

Lemma append_values_acc n :
  forall acc selector,
    append_values n acc selector = acc ++ append_values n [] selector.
Proof.
  induction n as [value|nodes IH] using Node_children_ind; intros acc selector.
  - reflexivity.
  - simpl. revert acc.
    induction IH as [|[k c] items Hc _ IHitems]; intros acc; simpl.
    + now rewrite app_nil_r.
    + rewrite IHitems.
      rewrite (IHitems (if selector k then _ else _)).
      rewrite app_assoc. f_equal.
      destruct (selector k); [apply Hc | now rewrite app_nil_r].
Qed.

Lemma subtree_values_leaf value : subtree_values (Leaf value) = [value].
Proof. reflexivity. Qed.

Lemma append_values_all n : concat (append_values n [] select_all) = subtree_values n.
Proof. now destruct n. Qed.

Lemma append_values_interior nodes selector :
  forall acc,
    concat (append_values (InteriorNode nodes) acc selector) =
    concat acc ++ flat_map (item_values selector) nodes.
Proof.
  induction nodes as [|[k c] items IH]; intros acc.
  - simpl. now rewrite app_nil_r.
  - change (append_values (InteriorNode ((k, c) :: items)) acc selector)
      with (append_values (InteriorNode items)
              (if selector k then append_values c acc select_all else acc) selector).
    rewrite IH. simpl. rewrite app_assoc. f_equal.
    unfold item_values. simpl. destruct (selector k).
    + now rewrite append_values_acc, concat_app, append_values_all.
    + now rewrite app_nil_r.
Qed.

Lemma values_interior nodes selector :
  concat (values (InteriorNode nodes) selector) = flat_map (item_values selector) nodes.
Proof. unfold values. now rewrite append_values_interior. Qed.

Lemma subtree_values_interior nodes :
  subtree_values (InteriorNode nodes) = flat_map (item_values select_all) nodes.
Proof. apply values_interior. Qed.

(** ** Insertion followed by lookup *)

Lemma is_wildcard_not_member x :
  PyStr.startswith "member:" x = true -> is_wildcard x = false.
Proof.
  intros H. unfold is_wildcard.
  destruct (x =? "*") eqn:E1.
  { apply String.eqb_eq in E1. subst x. discriminate. }
  destruct (x =? "**") eqn:E2; auto.
  apply String.eqb_eq in E2. subst x. discriminate.
Qed.

Lemma insert_rec_step e e' rest value nodes :
  insert_rec (e :: e' :: rest) value (InteriorNode nodes) =
  (InteriorNode (dict_set nodes e
     (fst (insert_rec (e' :: rest) value (child_or_new nodes e)))),
   snd (insert_rec (e' :: rest) value (child_or_new nodes e))).
Proof. now rewrite insert_rec_cons. Qed.

Lemma insert_rec_step_inv e e' rest value n n' r :
  insert_rec (e :: e' :: rest) value n = (n', r) ->
  (exists x, n = Leaf x /\ n' = n /\ r = Raise AttributeError) \/
  (exists nodes c',
      n = InteriorNode nodes /\
      insert_rec (e' :: rest) value (child_or_new nodes e) = (c', r) /\
      n' = InteriorNode (dict_set nodes e c')).
Proof.
  destruct n as [nodes|x].
  - rewrite insert_rec_step. intros [= <- <-]. right.
    exists nodes, (fst (insert_rec (e' :: rest) value (child_or_new nodes e))).
    repeat split. apply surjective_pairing.
  - rewrite insert_rec_cons. intros [= <- <-]. left. eauto.
Qed.

Lemma insert_last_inv e value n n' r :
  insert_last e value n = (n', r) ->
  (PyStr.startswith "member:" e = false /\ n' = n /\ r = Raise InvalidMemberSignature) \/
  (PyStr.startswith "member:" e = true /\
   ((exists x, n = Leaf x /\ n' = n /\ r = Raise AttributeError) \/
    (exists nodes, n = InteriorNode nodes /\ dict_contains nodes e = true /\
                   n' = n /\ r = Raise DuplicateSignature) \/
    (exists nodes, n = InteriorNode nodes /\ dict_contains nodes e = false /\
                   n' = InteriorNode (dict_set nodes e (Leaf value)) /\ r = Return tt))).
Proof.
  unfold insert_last. destruct (PyStr.startswith "member:" e); simpl.
  2:{ intros [= <- <-]. now left. }
  intros H. right. split; auto. revert H.
  destruct n as [nodes|x].
  - destruct (dict_contains nodes e) eqn:E; intros [= <- <-].
    + right; left. now exists nodes.
    + right; right. now exists nodes.
  - intros [= <- <-]. left. eauto.
Qed.

Lemma insert_rec_ok_member elements value :
  forall n n', insert_rec elements value n = (n', Return tt) ->
               PyStr.startswith "member:" (last elements EmptyString) = true.
Proof.
  induction elements as [|e rest IH]; intros n n'; [discriminate|].
  destruct rest as [|e' rest'].
  - intros H. apply insert_last_inv in H.
    destruct H as [(_ & _ & [=])|(H & _)]. exact H.
  - change (last (e :: e' :: rest') EmptyString) with (last (e' :: rest') EmptyString).
    intros H. apply insert_rec_step_inv in H.
    destruct H as [(x & _ & _ & [=])|(nodes & c' & _ & H & _)]. eauto.
Qed.

(** After a successful insertion the walk along the same elements ends on
    the new leaf. *)
Lemma insert_rec_find elements value selector :
  forall n n', insert_rec elements value n = (n', Return tt) ->
               find_rec elements selector n' = Return [value].
Proof.
  induction elements as [|e rest IH]; intros n n'; [discriminate|].
  destruct rest as [|e' rest'].
  - intros H. apply insert_last_inv in H.
    destruct H as [(_ & _ & [=])|(_ & [(x & _ & _ & [=])|
                     [(nodes & _ & _ & _ & [=])|(nodes & -> & _ & -> & _)]])].
    simpl. now rewrite dict_get_set_same.
  - intros H. apply insert_rec_step_inv in H.
    destruct H as [(x & _ & _ & [=])|(nodes & c' & -> & H & ->)].
    simpl. rewrite dict_get_set_same. eauto.
Qed.

(** Inserting along the same elements again is rejected and changes
    nothing. *)
Lemma insert_rec_again elements value value' :
  forall n n', insert_rec elements value n = (n', Return tt) ->
               insert_rec elements value' n' = (n', Raise DuplicateSignature).
Proof.
  induction elements as [|e rest IH]; intros n n'; [discriminate|].
  destruct rest as [|e' rest'].
  - intros H. apply insert_last_inv in H.
    destruct H as [(_ & _ & [=])|(Hm & [(x & _ & _ & [=])|
                     [(nodes & _ & _ & _ & [=])|(nodes & -> & _ & -> & _)]])].
    simpl. unfold insert_last. rewrite Hm. simpl.
    unfold dict_contains. now rewrite dict_get_set_same.
  - intros H. apply insert_rec_step_inv in H.
    destruct H as [(x & _ & _ & [=])|(nodes & c' & -> & H & ->)].
    rewrite insert_rec_step. unfold child_or_new at 1 2.
    rewrite dict_get_set_same. rewrite (IH _ _ H). simpl.
    now rewrite dict_set_set.
Qed.

Lemma walk_elements_member elements :
  PyStr.startswith "member:" (last elements EmptyString) = true ->
  walk_elements elements = elements.
Proof.
  intros H. unfold walk_elements. now rewrite (is_wildcard_not_member _ H).
Qed.

(** C1: once [add signature value] has returned normally,
    [get_matching_rows signature] on the resulting trie yields exactly the
    one value [value] (and leaves the trie as it is). *)
Theorem insert_then_exact_match signature value root root' :
  add signature value root = (root', Return tt) ->
  get_matching_rows signature root' = (root', Return [value]).
Proof.
  rewrite add_spec, get_matching_rows_spec.
  destruct (signature_to_elements signature) as [els|e]; [|discriminate].
  intros H.
  rewrite (walk_elements_member els) by (eapply insert_rec_ok_member; eauto).
  erewrite insert_rec_find; eauto.
Qed.

(** C5: when [add s v1] has returned normally and [s'] decomposes into the
    same elements as [s], [add s' v2] raises the duplicate-signature
    exception, the trie stays as it was, and [get_matching_rows s] still
    yields [v1] alone. *)
Theorem duplicate_signature_rejected s s' v1 v2 root root1 :
  add s v1 root = (root1, Return tt) ->
  signature_to_elements s' = signature_to_elements s ->
  add s' v2 root1 = (root1, Raise DuplicateSignature) /\
  get_matching_rows s root1 = (root1, Return [v1]).
Proof.
  intros Hadd Heq. split.
  - rewrite add_spec in *. rewrite Heq.
    destruct (signature_to_elements s) as [els|e]; [|discriminate].
    eapply insert_rec_again; eauto.
  - rewrite add_spec in Hadd. rewrite get_matching_rows_spec.
    destruct (signature_to_elements s) as [els|e]; [|discriminate].
    rewrite (walk_elements_member els) by (eapply insert_rec_ok_member; eauto).
    erewrite insert_rec_find; eauto.
Qed.

(** [match_walk] only reads the store. *)
Lemma match_walk_frame elements :
  forall node root, fst (match_walk elements node root) = root.
Proof.
  induction elements as [|e rest IH]; intros node root; simpl; auto.
  unfold bind, nodes_contains, get_nodes, bind, ret.
  destruct (deref root node) as [[nodes|x]|]; simpl; auto.
  destruct (dict_contains nodes e); simpl; auto.
Qed.

Lemma match_from_frame elements selector node root :
  fst (match_from elements selector node root) = root.
Proof.
  unfold match_from, bind.
  pose proof (match_walk_frame elements node root) as Hw.
  destruct (match_walk elements node root) as [root1 [[found|]|e]];
    simpl in *; subst; auto.
  unfold load, ret. destruct (deref root found); reflexivity.
Qed.

(** C9: [get_matching_rows] leaves the trie exactly as it found it, whatever
    the pattern and whether it returns or raises, and the same query issued
    again right after gives the same result. *)
Theorem get_matching_rows_read_only pattern root :
  fst (get_matching_rows pattern root) = root /\
  get_matching_rows pattern (fst (get_matching_rows pattern root)) =
  get_matching_rows pattern root.
Proof.
  assert (H : fst (get_matching_rows pattern root) = root).
  { rewrite get_matching_rows_unfold.
    destruct (signature_to_elements pattern) as [els|e]; [|reflexivity].
    apply match_from_frame. }
  split; [exact H | now rewrite H].
Qed.

(** ** What an insertion does to the collected values *)

Lemma item_values_pair selector k c :
  item_values selector (k, c) = if selector k then subtree_values c else [].
Proof. reflexivity. Qed.

Lemma flat_map_dict_set_same selector (nodes : dict) e c' :
  subtree_values c' = subtree_values (child_or_new nodes e) ->
  flat_map (item_values selector) (dict_set nodes e c') =
  flat_map (item_values selector) nodes.
Proof.
  unfold child_or_new. intros H.
  destruct (dict_get nodes e) as [c|] eqn:E.
  - destruct (dict_set_old nodes e c' c E) as (d1 & d2 & -> & -> & _).
    rewrite !flat_map_app. simpl. rewrite !item_values_pair. now rewrite H.
  - rewrite (dict_set_new _ _ _ E), flat_map_app. simpl.
    rewrite item_values_pair, H.
    destruct (selector e); now rewrite !app_nil_r.
Qed.

Lemma flat_map_dict_set_more selector (nodes : dict) e c' value :
  Permutation (subtree_values c') (value :: subtree_values (child_or_new nodes e)) ->
  Permutation (flat_map (item_values selector) (dict_set nodes e c'))
    ((if selector e then [value] else []) ++ flat_map (item_values selector) nodes).
Proof.
  unfold child_or_new. intros H.
  destruct (dict_get nodes e) as [c|] eqn:E.
  - destruct (dict_set_old nodes e c' c E) as (d1 & d2 & -> & -> & _).
    rewrite !flat_map_app. simpl. rewrite !item_values_pair.
    destruct (selector e); simpl; auto.
    rewrite H. simpl. symmetry. apply Permutation_middle.
  - rewrite (dict_set_new _ _ _ E), flat_map_app. simpl.
    rewrite item_values_pair, app_nil_r.
    destruct (selector e); simpl; [|now rewrite app_nil_r].
    rewrite H. symmetry. apply Permutation_cons_append.
Qed.

(** A successful insertion adds its value, and nothing else, to what is
    collected from the node; the selector is asked about the first
    element. *)
Lemma insert_rec_ok_values elements value :
  forall n n' selector,
    insert_rec elements value n = (n', Return tt) ->
    Permutation (concat (values n' selector))
      ((if selector (hd EmptyString elements) then [value] else [])
         ++ concat (values n selector)).
Proof.
  induction elements as [|e rest IH]; intros n n' selector; [discriminate|].
  destruct rest as [|e' rest'].
  - intros H. apply insert_last_inv in H.
    destruct H as [(_ & _ & [=])|(_ & [(x & _ & _ & [=])|
                     [(nodes & _ & _ & _ & [=])|(nodes & -> & Hc & -> & _)]])].
    simpl hd. rewrite !values_interior. apply flat_map_dict_set_more.
    rewrite subtree_values_leaf.
    unfold child_or_new. unfold dict_contains in Hc.
    destruct (dict_get nodes e); [discriminate|]. reflexivity.
  - intros H. apply insert_rec_step_inv in H.
    destruct H as [(x & _ & _ & [=])|(nodes & c' & -> & H & ->)].
    simpl hd. rewrite !values_interior. apply flat_map_dict_set_more.
    apply (IH _ _ select_all) in H. exact H.
Qed.

(** An insertion that raises adds no value anywhere. *)
Lemma insert_rec_raise_values elements value :
  forall n n' e selector,
    insert_rec elements value n = (n', Raise e) ->
    concat (values n' selector) = concat (values n selector).
Proof.
  induction elements as [|e0 rest IH]; intros n n' e selector.
  - now intros [= <- _].
  - destruct rest as [|e' rest'].
    + intros H. apply insert_last_inv in H.
      destruct H as [(_ & -> & _)|(_ & [(x & _ & -> & _)|
                       [(nodes & _ & _ & -> & _)|(nodes & _ & _ & _ & [=])]])];
        reflexivity.
    + intros H. apply insert_rec_step_inv in H.
      destruct H as [(x & _ & -> & _)|(nodes & c' & -> & H & ->)]; [reflexivity|].
      rewrite !values_interior. apply flat_map_dict_set_same.
      eapply IH; eauto.
Qed.

Lemma find_rec_empty elements selector :
  find_rec elements selector (InteriorNode []) = Return [].
Proof. destruct elements; reflexivity. Qed.

(** An insertion that raises changes the answer to no query. *)
Lemma insert_rec_raise_find elements value :
  forall n n' e walked selector,
    insert_rec elements value n = (n', Raise e) ->
    find_rec walked selector n' = find_rec walked selector n.
Proof.
  induction elements as [|e0 rest IH]; intros n n' e walked selector.
  - now intros [= <- _].
  - destruct rest as [|e' rest'].
    + intros H. apply insert_last_inv in H.
      destruct H as [(_ & -> & _)|(_ & [(x & _ & -> & _)|
                       [(nodes & _ & _ & -> & _)|(nodes & _ & _ & _ & [=])]])];
        reflexivity.
    + intros H. apply insert_rec_step_inv in H.
      destruct H as [(x & _ & -> & _)|(nodes & c' & -> & H & ->)]; [reflexivity|].
      destruct walked as [|k walked'].
      * cbn [find_rec]. f_equal.
        rewrite !values_interior. apply flat_map_dict_set_same.
        eapply (insert_rec_raise_values _ _ _ _ _ select_all); eauto.
      * cbn [find_rec]. destruct (String.eqb_spec e0 k) as [->|Hne].
        -- rewrite dict_get_set_same, (IH _ _ _ walked' selector H).
           unfold child_or_new. destruct (dict_get nodes k); auto.
           apply find_rec_empty.
        -- now rewrite dict_get_set_other.
Qed.

(** From a node just created the walk cannot meet a leaf or a duplicate. *)
Lemma insert_rec_fresh elements value :
  forall n' e, insert_rec elements value (InteriorNode []) = (n', Raise e) ->
               e = InvalidMemberSignature.
Proof.
  induction elements as [|e0 rest IH]; intros n' e.
  - now intros [= _ <-].
  - destruct rest as [|e' rest'].
    + simpl. unfold insert_last.
      destruct (negb (PyStr.startswith "member:" e0)); simpl; [now intros [= _ <-]|].
      discriminate.
    + rewrite insert_rec_step. intros [= _ H]. eapply IH.
      rewrite <- H. apply surjective_pairing.
Qed.

(** Only the missing-member failure leaves anything behind. *)
Lemma insert_rec_raise_same elements value :
  forall n n' e,
    insert_rec elements value n = (n', Raise e) ->
    e <> InvalidMemberSignature -> n' = n.
Proof.
  induction elements as [|e0 rest IH]; intros n n' e.
  - now intros [= <- _].
  - destruct rest as [|e' rest'].
    + intros H _. apply insert_last_inv in H.
      destruct H as [(_ & -> & _)|(_ & [(x & _ & -> & _)|
                       [(nodes & _ & _ & -> & _)|(nodes & _ & _ & _ & [=])]])];
        reflexivity.
    + intros H Hne. apply insert_rec_step_inv in H.
      destruct H as [(x & _ & -> & _)|(nodes & c' & -> & H & ->)]; [reflexivity|].
      unfold child_or_new in H. destruct (dict_get nodes e0) as [c|] eqn:E.
      * rewrite (IH _ _ _ H Hne). now rewrite dict_set_get_id.
      * apply insert_rec_fresh in H. contradiction.
Qed.

(** C4 (amended): a failed [add] that raises anything but the
    missing-member exception, the duplicate-signature one in particular,
    leaves the trie exactly as it was; one that raises the missing-member
    exception may leave behind the interior nodes its walk created, but it
    stores no value: every [get_matching_rows] query answers the same on the
    trie after the failed call as on the trie before it. *)
Theorem failed_add_keeps_answers signature value root root' e :
  add signature value root = (root', Raise e) ->
  (e <> InvalidMemberSignature -> root' = root) /\
  (forall pattern,
      snd (get_matching_rows pattern root') = snd (get_matching_rows pattern root)).
Proof.
  rewrite add_spec. intros H. split.
  - intros Hne. destruct (signature_to_elements signature) as [els|e'].
    + eapply insert_rec_raise_same; eauto.
    + now injection H as <- _.
  - intros pattern. rewrite !get_matching_rows_spec.
    destruct (signature_to_elements signature) as [els|e'].
    + destruct (signature_to_elements pattern) as [walked|e'']; simpl; auto.
      eapply insert_rec_raise_find; eauto.
    + now injection H as <- _.
Qed.

(** ** Walks that end on a node *)

Lemma find_rec_deref walked selector :
  forall n m, deref n walked = Some m ->
              find_rec walked selector n = Return (concat (values m selector)).
Proof.
  induction walked as [|e rest IH]; intros n m; simpl.
  - now intros [= ->].
  - destruct n as [nodes|x]; [|discriminate].
    destruct (dict_get nodes e); [apply IH | discriminate].
Qed.


(** A successful insertion is seen from every proper prefix of its
    elements. *)
Lemma insert_rec_prefix_find value prefix suffix :
  suffix <> [] ->
  forall n n', insert_rec (prefix ++ suffix) value n = (n', Return tt) ->
               exists l, find_rec prefix select_all n' = Return l /\ In value l.
Proof.
  intros Hs. induction prefix as [|e rest IH]; intros n n' H.
  - exists (subtree_values n'). split; [reflexivity|].
    eapply Permutation_in.
    + symmetry. eapply (insert_rec_ok_values _ _ _ _ select_all); eauto.
    + simpl. auto.
  - simpl app in H. remember (rest ++ suffix) as r eqn:Er.
    destruct r as [|e' r'].
    { symmetry in Er. apply app_eq_nil in Er. destruct Er. contradiction. }
    apply insert_rec_step_inv in H.
    destruct H as [(x & _ & _ & [=])|(nodes & c' & -> & H & ->)].
    cbn [find_rec]. rewrite dict_get_set_same. eapply IH; eauto.
Qed.

(** ** Tries built by a sequence of calls *)

Lemma well_tagged_interior nodes :
  well_tagged (InteriorNode nodes) = forallb tagged_item nodes.
Proof. reflexivity. Qed.

Lemma dict_get_In (d : dict) k c : dict_get d k = Some c -> In (k, c) d.
Proof.
  induction d as [|[k' c'] d IH]; simpl; [discriminate|].
  destruct (String.eqb_spec k' k) as [->|_].
  - intros [= ->]. now left.
  - intros H. right. auto.
Qed.

Lemma forallb_dict_set (f : string * Node -> bool) (d : dict) k c :
  forallb f d = true -> f (k, c) = true -> forallb f (dict_set d k c) = true.
Proof.
  intros Hd Hc. induction d as [|[k' c'] d IH]; simpl in *.
  - now rewrite Hc.
  - apply andb_true_iff in Hd. destruct Hd as [H1 H2].
    destruct (String.eqb_spec k' k) as [->|_]; simpl.
    + now rewrite Hc, H2.
    + now rewrite H1, IH.
Qed.

Lemma insert_rec_kind elements value :
  forall n, is_leaf (fst (insert_rec elements value n)) = is_leaf n.
Proof.
  destruct elements as [|e [|e' rest]]; intros n.
  - reflexivity.
  - simpl. unfold insert_last.
    destruct (negb (PyStr.startswith "member:" e)); [reflexivity|].
    destruct n as [nodes|x]; [|reflexivity].
    now destruct (dict_contains nodes e).
  - rewrite insert_rec_cons. now destruct n.
Qed.

Lemma tagged_child_or_new nodes e :
  forallb tagged_item nodes = true -> tagged_item (e, child_or_new nodes e) = true.
Proof.
  intros H. unfold child_or_new.
  destruct (dict_get nodes e) as [c|] eqn:E; [|reflexivity].
  rewrite forallb_forall in H. apply H. now apply dict_get_In.
Qed.

Lemma insert_rec_well_tagged elements value :
  forall n, well_tagged n = true ->
            well_tagged (fst (insert_rec elements value n)) = true.
Proof.
  induction elements as [|e rest IH]; intros n Hn; [exact Hn|].
  destruct rest as [|e' rest'].
  - simpl. unfold insert_last.
    destruct (PyStr.startswith "member:" e) eqn:Em; simpl; [|exact Hn].
    destruct n as [nodes|x]; [|exact Hn].
    destruct (dict_contains nodes e); [exact Hn|].
    cbn [fst]. rewrite well_tagged_interior in *.
    apply forallb_dict_set; auto.
    unfold tagged_item. simpl. now rewrite Em.
  - destruct n as [nodes|x]; [|now rewrite insert_rec_cons].
    rewrite insert_rec_step. cbn [fst]. rewrite well_tagged_interior in *.
    apply forallb_dict_set; auto.
    pose proof (tagged_child_or_new nodes e Hn) as Hc.
    unfold tagged_item in *. cbn [fst snd] in *.
    apply andb_true_iff in Hc. destruct Hc as [Hk Hw].
    now rewrite insert_rec_kind, Hk, IH.
Qed.

Lemma add_well_tagged signature value root :
  well_tagged root = true -> well_tagged (fst (add signature value root)) = true.
Proof.
  intros H. rewrite add_spec.
  destruct (signature_to_elements signature); [now apply insert_rec_well_tagged | exact H].
Qed.

Lemma add_kind signature value root :
  is_leaf (fst (add signature value root)) = is_leaf root.
Proof.
  rewrite add_spec.
  destruct (signature_to_elements signature); [apply insert_rec_kind | reflexivity].
Qed.

Lemma add_all_well_tagged calls :
  forall root, well_tagged root = true -> well_tagged (fst (add_all calls root)) = true.
Proof.
  induction calls as [|[s v] calls IH]; intros root H; simpl; auto.
  pose proof (add_well_tagged s v root H) as H1.
  destruct (add s v root) as [root' [u|e]]; simpl in *.
  - specialize (IH root' H1). now destruct (add_all calls root').
  - auto.
Qed.

Lemma add_all_kind calls :
  forall root, is_leaf (fst (add_all calls root)) = is_leaf root.
Proof.
  induction calls as [|[s v] calls IH]; intros root; simpl; auto.
  pose proof (add_kind s v root) as H1.
  destruct (add s v root) as [root' [u|e]]; simpl in *.
  - specialize (IH root'). destruct (add_all calls root'). simpl in *. congruence.
  - now rewrite IH.
Qed.

(** ** Lookups that cannot raise *)

Lemma Forall_removelast {A} (P : A -> Prop) (l : list A) :
  Forall P l -> Forall P (removelast l).
Proof.
  induction 1 as [|x l Hx Hl IH]; simpl; auto.
  destruct l; auto.
Qed.

Lemma walk_elements_Forall (P : string -> Prop) elements :
  Forall P elements -> Forall P (walk_elements elements).
Proof.
  intros H. unfold walk_elements.
  destruct (is_wildcard (last elements EmptyString)); auto using Forall_removelast.
Qed.

Lemma packages_not_member packages :
  Forall not_member (map (append "package:") packages).
Proof. apply Forall_forall. intros x Hx. apply in_map_iff in Hx. now destruct Hx as (y & <- & _). Qed.

Lemma classes_not_member classes :
  Forall not_member (map (append "class:") classes).
Proof. apply Forall_forall. intros x Hx. apply in_map_iff in Hx. now destruct Hx as (y & <- & _). Qed.

Lemma member_is_member m : PyStr.startswith "member:" ("member:" ++ m) = true.
Proof. unfold PyStr.startswith. simpl. now destruct m. Qed.

(** With at most one member piece, a member element can only come last. *)
Lemma walk_elements_tags pattern elements :
  signature_to_elements pattern = Return elements ->
  (length (signature_member pattern) <= 1)%nat ->
  Forall not_member (removelast (walk_elements elements)).
Proof.
  unfold signature_to_elements, signature_member, signature_parts, signature_text.
  cbv zeta.
  set (parts := PyStr.split ";->" (PyStr.removeprefix "L" pattern)).
  set (components := PyStr.split "/" (hd EmptyString parts)).
  destruct (is_wildcard (last components EmptyString)) eqn:Ew.
  - destruct (negb (length (tl parts) =? 0)%nat); [discriminate|].
    intros [= <-] _. unfold walk_elements.
    rewrite last_last, Ew, removelast_last.
    apply Forall_removelast, packages_not_member.
  - intros [= <-] Hlen.
    destruct (tl parts) as [|m [|m' ms]]; simpl in Hlen; [| |lia].
    + simpl map. rewrite app_nil_r.
      apply Forall_removelast, walk_elements_Forall, Forall_app.
      split; [apply packages_not_member | apply classes_not_member].
    + rewrite walk_elements_member.
      * simpl map. rewrite app_assoc, removelast_last. apply Forall_app.
        split; [apply packages_not_member | apply classes_not_member].
      * simpl map. rewrite app_assoc, last_last. apply member_is_member.
Qed.

Lemma find_rec_returns walked selector :
  forall n,
    well_tagged n = true -> is_leaf n = false ->
    Forall not_member (removelast walked) ->
    exists rows, find_rec walked selector n = Return rows.
Proof.
  induction walked as [|e rest IH]; intros n Hw Hk Hf.
  - simpl. eauto.
  - destruct n as [nodes|x]; [|discriminate]. cbn [find_rec].
    destruct (dict_get nodes e) as [c|] eqn:E; [|eauto].
    destruct rest as [|e' rest']; [simpl; eauto|].
    change (removelast (e :: e' :: rest')) with (e :: removelast (e' :: rest')) in Hf.
    inversion Hf as [|? ? He Hrest]; subst.
    rewrite well_tagged_interior, forallb_forall in Hw.
    specialize (Hw _ (dict_get_In _ _ _ E)).
    unfold tagged_item in Hw. cbn [fst snd] in Hw.
    apply andb_true_iff in Hw. destruct Hw as [Hc Hwc].
    unfold not_member in He. rewrite He, orb_false_r in Hc.
    apply IH; auto. now apply negb_true_iff.
Qed.

(** ** Lookup as a filter over what was inserted *)

(** One successful insertion adds its value to the answer of exactly the
    lookups that reach it. *)
Lemma insert_rec_find_step elements value :
  forall walked selector n n' rows',
    insert_rec elements value n = (n', Return tt) ->
    find_rec walked selector n' = Return rows' ->
    exists rows,
      find_rec walked selector n = Return rows /\
      Permutation rows'
        ((if reaches walked selector elements then [value] else []) ++ rows).
Proof.
  induction elements as [|e rest IH]; intros walked selector n n' rows' Hi Hf;
    [discriminate|].
  destruct walked as [|w ws].
  { cbn [find_rec] in *. injection Hf as <-. eexists. split; [reflexivity|].
    apply (insert_rec_ok_values _ _ _ _ selector Hi). }
  destruct rest as [|e' rest'].
  - apply insert_last_inv in Hi.
    destruct Hi as [(_ & _ & [=])|(_ & [(x & _ & _ & [=])|
                      [(nodes & _ & _ & _ & [=])|(nodes & -> & Hc & -> & _)]])].
    cbn [find_rec] in *. unfold dict_contains in Hc.
    destruct (String.eqb_spec w e) as [->|Hne].
    + rewrite dict_get_set_same in Hf.
      destruct (dict_get nodes e); [discriminate|].
      destruct ws as [|w' ws']; [|discriminate].
      injection Hf as <-. exists []. split; [reflexivity|].
      simpl. now rewrite String.eqb_refl.
    + rewrite dict_get_set_other in Hf by congruence.
      exists rows'. split; [exact Hf|].
      simpl. apply String.eqb_neq in Hne. now rewrite Hne.
  - apply insert_rec_step_inv in Hi.
    destruct Hi as [(x & _ & _ & [=])|(nodes & c' & -> & Hi & ->)].
    cbn [find_rec] in *.
    destruct (String.eqb_spec w e) as [->|Hne].
    + rewrite dict_get_set_same in Hf.
      destruct (IH _ _ _ _ _ Hi Hf) as (rows & Hrows & Hperm).
      cbn [reaches]. rewrite String.eqb_refl. cbn [andb].
      unfold child_or_new in Hrows.
      destruct (dict_get nodes e); [eauto|].
      rewrite find_rec_empty in Hrows. injection Hrows as <-. eauto.
    + rewrite dict_get_set_other in Hf by congruence.
      exists rows'. split; [exact Hf|].
      cbn [reaches]. apply String.eqb_neq in Hne. now rewrite Hne.
Qed.

(** What a lookup returns after a sequence of calls: the values of the
    calls that returned normally and that it reaches, on top of what it
    returned before. *)
Lemma add_all_find walked selector calls :
  forall root rows',
    find_rec walked selector (fst (add_all calls root)) = Return rows' ->
    exists rows,
      find_rec walked selector root = Return rows /\
      Permutation rows'
        (map snd (filter (call_reached walked selector) (snd (add_all calls root)))
           ++ rows).
Proof.
  induction calls as [|[s v] calls IH]; intros root rows' Hf; simpl in *.
  { exists rows'. now split. }
  destruct (add s v root) as [root1 [[]|e]] eqn:Ea; rewrite add_spec in Ea.
  - specialize (IH root1 rows').
    destruct (add_all calls root1) as [final added]. simpl in *.
    destruct (IH Hf) as (rows1 & Hrows1 & Hperm1).
    unfold call_reached at 1. simpl.
    destruct (signature_to_elements s) as [els|e]; [|discriminate].
    destruct (insert_rec_find_step _ _ _ _ _ _ _ Ea Hrows1) as (rows & Hrows & Hperm).
    exists rows. split; [exact Hrows|].
    rewrite Hperm1, Hperm.
    destruct (reaches walked selector els); simpl; [|reflexivity].
    symmetry. apply Permutation_middle.
  - destruct (IH root1 rows' Hf) as (rows1 & Hrows1 & Hperm1).
    exists rows1. split; [|exact Hperm1].
    destruct (signature_to_elements s) as [els|e'].
    + now rewrite <- (insert_rec_raise_find _ _ _ _ _ walked selector Ea).
    + now injection Ea as <- _.
Qed.

Lemma last_Forall {A} (P : A -> Prop) (l : list A) d :
  l <> [] -> Forall P l -> P (last l d).
Proof.
  intros Hl H. induction H as [|x l Hx Hrest IH]; [contradiction|].
  destruct l as [|y l']; [exact Hx|]. apply IH. discriminate.
Qed.

Lemma map_not_wildcard (tagged : string -> string) (names : list string) :
  (forall x, is_wildcard (tagged x) = false) ->
  Forall (fun x => is_wildcard x = false) (map tagged names).
Proof.
  intros H. apply Forall_forall. intros x Hx.
  apply in_map_iff in Hx. now destruct Hx as (y & <- & _).
Qed.

(** A decomposition that ends in a wildcard has no member part. *)
Lemma decomposed_wildcard_no_member pattern elements :
  signature_to_elements pattern = Return elements ->
  is_wildcard (last elements EmptyString) = true ->
  signature_member pattern = [].
Proof.
  rewrite signature_to_elements_assemble. unfold assemble. cbv zeta.
  destruct (is_wildcard (last (PyStr.split "/" _) EmptyString)).
  - destruct (signature_member pattern); [reflexivity | discriminate].
  - intros [= <-] Hw. exfalso.
    match type of Hw with
    | is_wildcard ?t = true => assert (Hnw : is_wildcard t = false)
    end.
    { apply (last_Forall (fun x => is_wildcard x = false)).
      - intros H. apply app_eq_nil in H. destruct H as [_ H].
        apply app_eq_nil in H. destruct H as [H _].
        apply map_eq_nil in H. revert H. apply split_from_not_nil.
      - repeat (apply Forall_app; split);
          apply map_not_wildcard; intros x; reflexivity. }
    congruence.
Qed.

(** On a trie built by [add] calls, a lookup whose pattern decomposes and
    has at most one member part returns, up to order, the values of the
    calls that returned normally and that it reaches. *)
Lemma built_lookup calls pattern elements :
  signature_to_elements pattern = Return elements ->
  (length (signature_member pattern) <= 1)%nat ->
  exists rows,
    get_matching_rows pattern (fst (add_all calls signature_trie)) =
    (fst (add_all calls signature_trie), Return rows) /\
    Permutation rows
      (map snd (filter (call_reached (walk_elements elements) (pattern_selector elements))
                  (snd (add_all calls signature_trie)))).
Proof.
  intros He Hlen. rewrite get_matching_rows_spec, He.
  destruct (find_rec_returns (walk_elements elements) (pattern_selector elements)
              (fst (add_all calls signature_trie))) as [rows Hrows].
  - apply add_all_well_tagged. reflexivity.
  - now rewrite add_all_kind.
  - eapply walk_elements_tags; eauto.
  - exists rows. split; [now rewrite Hrows|].
    destruct (add_all_find _ _ _ _ _ Hrows) as (rows0 & H0 & Hperm).
    rewrite find_rec_empty in H0. injection H0 as <-.
    now rewrite app_nil_r in Hperm.
Qed.

(** C2: for a pattern whose last element is the single-level wildcard and
    whose other elements lead to an interior node, [get_matching_rows]
    returns the values of the subtrees under the keys of that node that do
    not start with "package:", and nothing else; on a trie built by [add]
    calls these are, up to order, the values inserted under the elements
    before the wildcard followed by an element that is not a package; with
    "Lpkg/Foo;->m()V" and "Lpkg/sub/Bar;->n()V" inserted into an empty
    trie, "Lpkg/*" yields [v1] alone and "Lpkg/**" yields [v1] and [v2]. *)
Theorem single_level_wildcard_excludes_subpackages :
  (forall pattern prefix root nodes,
      signature_to_elements pattern = Return (prefix ++ ["*"]) ->
      deref root prefix = Some (InteriorNode nodes) ->
      get_matching_rows pattern root =
      (root, Return (flat_map (item_values select_no_packages) nodes))) /\
  (forall calls pattern prefix,
      signature_to_elements pattern = Return (prefix ++ ["*"]) ->
      exists rows,
        get_matching_rows pattern (fst (add_all calls signature_trie)) =
        (fst (add_all calls signature_trie), Return rows) /\
        Permutation rows
          (map snd (filter (call_reached prefix select_no_packages)
                      (snd (add_all calls signature_trie))))) /\
  (forall v1 v2,
      let root1 := fst (add "Lpkg/Foo;->m()V" v1 signature_trie) in
      let root2 := fst (add "Lpkg/sub/Bar;->n()V" v2 root1) in
      snd (add "Lpkg/Foo;->m()V" v1 signature_trie) = Return tt /\
      snd (add "Lpkg/sub/Bar;->n()V" v2 root1) = Return tt /\
      get_matching_rows "Lpkg/*" root2 = (root2, Return [v1]) /\
      get_matching_rows "Lpkg/**" root2 = (root2, Return [v1; v2])).
Proof.
  split; [|split].
  - intros pattern prefix root nodes He Hd.
    rewrite get_matching_rows_spec, He.
    unfold walk_elements, pattern_selector. rewrite last_last, removelast_last.
    simpl. rewrite (find_rec_deref _ _ _ _ Hd). now rewrite values_interior.
  - intros calls pattern prefix He.
    assert (Hm : signature_member pattern = []).
    { apply (decomposed_wildcard_no_member _ _ He). now rewrite last_last. }
    destruct (built_lookup calls pattern _ He) as (rows & Hrows & Hperm).
    { rewrite Hm. simpl. lia. }
    exists rows. split; [exact Hrows|].
    unfold walk_elements, pattern_selector in Hperm.
    now rewrite last_last, removelast_last in Hperm.
  - intros v1 v2. repeat split.
Qed.

Lemma filter_all {A} (f : A -> bool) (l : list A) :
  (forall x, In x l -> f x = true) -> filter f l = l.
Proof.
  induction l as [|x l IH]; intros H; simpl; auto.
  rewrite (H x (or_introl eq_refl)). f_equal. apply IH. intros y Hy. apply H. now right.
Qed.

(** Every call that returned normally had a signature that decomposes. *)
Lemma added_decompose calls :
  forall root call,
    In call (snd (add_all calls root)) ->
    exists elements, signature_to_elements (fst call) = Return elements.
Proof.
  induction calls as [|[s v] calls IH]; intros root call; simpl; [contradiction|].
  destruct (add s v root) as [root' [[]|e]] eqn:Ea.
  - specialize (IH root' call). destruct (add_all calls root') as [final added].
    simpl in *. intros [<-|Hin]; [|auto].
    simpl. rewrite add_spec in Ea.
    destruct (signature_to_elements s); [eauto | discriminate].
  - apply IH.
Qed.

(** C10: on every trie "**" and "L**" return the values of all the subtrees
    under the root and "*" those of the subtrees under the root keys that do
    not start with "package:" and nothing of those that do, none of them
    raising; on a trie built from the empty one by any sequence of [add]
    calls, "**" and "L**" return, up to order, the values of the calls that
    returned normally, and "*" those whose signature starts with a class
    rather than a package; with "LTop;->m", "Lpkg/Foo;->n" and "LTop$In;->k"
    inserted, "*" yields the two values under [Top] and not the one in
    [pkg], "**" all three. *)
Theorem root_wildcards_accepted :
  (forall nodes,
      let root := InteriorNode nodes in
      get_matching_rows "**" root =
      (root, Return (flat_map (item_values select_all) nodes)) /\
      get_matching_rows "L**" root =
      (root, Return (flat_map (item_values select_all) nodes)) /\
      get_matching_rows "*" root =
      (root, Return (flat_map (item_values select_no_packages) nodes))) /\
  (forall nodes,
      let root := InteriorNode nodes in
      get_matching_rows "**" root =
      (root, Return (flat_map (fun item => concat (values (snd item) (fun _ => true)))
                       nodes)) /\
      get_matching_rows "*" root =
      (root, Return (flat_map
                       (fun item =>
                          if PyStr.startswith "package:" (fst item) then []
                          else concat (values (snd item) (fun _ => true)))
                       nodes))) /\
  (forall calls,
      let root := fst (add_all calls signature_trie) in
      let added := snd (add_all calls signature_trie) in
      exists every direct,
        get_matching_rows "**" root = (root, Return every) /\
        get_matching_rows "L**" root = (root, Return every) /\
        Permutation every (map snd added) /\
        get_matching_rows "*" root = (root, Return direct) /\
        Permutation direct
          (map snd (filter (call_reached [] select_no_packages) added)) /\
        Permutation direct
          (map snd
             (filter
                (fun call =>
                   match signature_to_elements (fst call) with
                   | Return (first :: _) => negb (PyStr.startswith "package:" first)
                   | _ => false
                   end)
                added))) /\
  (forall v1 v2 v3,
      let root :=
        fst (add_all [("LTop;->m", v1); ("Lpkg/Foo;->n", v2); ("LTop$In;->k", v3)]
               signature_trie) in
      map snd (snd (add_all [("LTop;->m", v1); ("Lpkg/Foo;->n", v2); ("LTop$In;->k", v3)]
                      signature_trie)) = [v1; v2; v3] /\
      get_matching_rows "*" root = (root, Return [v1; v3]) /\
      get_matching_rows "**" root = (root, Return [v1; v3; v2]) /\
      get_matching_rows "L**" root = (root, Return [v1; v3; v2])).
Proof.
  assert (Hany : forall nodes,
             let root := InteriorNode nodes in
             get_matching_rows "**" root =
             (root, Return (flat_map (item_values select_all) nodes)) /\
             get_matching_rows "L**" root =
             (root, Return (flat_map (item_values select_all) nodes)) /\
             get_matching_rows "*" root =
             (root, Return (flat_map (item_values select_no_packages) nodes))).
  { intros nodes root.
    change (get_matching_rows "L**" root) with (get_matching_rows "**" root).
    rewrite !get_matching_rows_spec.
    change (signature_to_elements "**") with (@Return (list string) ["**"]).
    change (signature_to_elements "*") with (@Return (list string) ["*"]).
    cbv beta iota.
    change (walk_elements ["**"]) with (@nil string).
    change (walk_elements ["*"]) with (@nil string).
    change (pattern_selector ["**"]) with select_all.
    change (pattern_selector ["*"]) with select_no_packages.
    cbn [find_rec]. unfold root. now rewrite !values_interior. }
  split; [exact Hany|]. split; [|split].
  - intros nodes root. destruct (Hany nodes) as (Hall & _ & Hdirect).
    fold root in Hall, Hdirect. rewrite Hall, Hdirect. split.
    + reflexivity.
    + apply (f_equal (fun rows => (root, Return rows))).
      apply flat_map_ext. intros [k c].
      unfold item_values, select_no_packages, subtree_values. cbn [fst snd].
      now destruct (PyStr.startswith "package:" k).
  - intros calls root added.
    destruct (built_lookup calls "**" ["**"] eq_refl (le_0_n 1))
      as (every & Hevery & Hperm).
    destruct (built_lookup calls "*" ["*"] eq_refl (le_0_n 1))
      as (direct & Hdirect & Hperm').
    exists every, direct.
    change (get_matching_rows "L**" root) with (get_matching_rows "**" root).
    split; [exact Hevery|]. split; [exact Hevery|]. split; [|split; [exact Hdirect|split]].
    + rewrite Hperm.
      change (walk_elements ["**"]) with (@nil string).
      change (pattern_selector ["**"]) with select_all.
      rewrite filter_all; [reflexivity|].
      intros call Hin. destruct (added_decompose _ _ _ Hin) as [els Hels].
      unfold call_reached. rewrite Hels. now destruct els.
    + exact Hperm'.
    + rewrite Hperm'.
      change (walk_elements ["*"]) with (@nil string).
      change (pattern_selector ["*"]) with select_no_packages.
      erewrite filter_ext_in; [reflexivity|].
      intros call Hin. destruct (added_decompose _ _ _ Hin) as [els Hels].
      unfold call_reached. rewrite Hels.
      destruct els as [|first rest]; [|reflexivity].
      now apply signature_to_elements_not_nil in Hels.
  - intros v1 v2 v3. repeat split.
Qed.



(** ** Malformed patterns *)

Lemma signature_to_elements_raises signature e :
  signature_to_elements signature = Raise e <->
  e = MalformedPattern /\
  is_wildcard (signature_class_name signature) = true /\
  signature_member signature <> [].
Proof.
  rewrite signature_to_elements_assemble.
  unfold assemble, signature_class_name. cbv zeta.
  destruct (is_wildcard (last (PyStr.split "/" _) EmptyString)).
  - destruct (signature_member signature) as [|m ms]; simpl.
    + split; [discriminate | now intros (_ & _ & H)].
    + split; [intros [= <-] | intros (-> & _)]; repeat split; discriminate.
  - split; [discriminate | intros (_ & [=] & _)].
Qed.

(** C7: [signature_to_elements] raises exactly when the last "/"-separated
    component of the class path is "*" or "**" and a member part follows
    the ";->" separator, and what it raises is the malformed-pattern
    exception; [add] and [get_matching_rows] hand that exception on as it
    is, without touching the trie; "Lpkg/*;->m()V" is such a pattern. *)
Theorem malformed_pattern_condition :
  (forall signature e,
      signature_to_elements signature = Raise e <->
      e = MalformedPattern /\
      is_wildcard (signature_class_name signature) = true /\
      signature_member signature <> []) /\
  (forall signature e value root,
      signature_to_elements signature = Raise e ->
      add signature value root = (root, Raise e) /\
      get_matching_rows signature root = (root, Raise e)) /\
  (forall root,
      get_matching_rows "Lpkg/*;->m()V" root = (root, Raise MalformedPattern)).
Proof.
  split; [exact signature_to_elements_raises | split].
  - intros signature e value root H.
    now rewrite add_spec, get_matching_rows_spec, H.
  - intros root. now rewrite get_matching_rows_spec.
Qed.

(** ** More about the decomposer *)

(** The two ways a decomposition is put together. *)
Lemma decomposition_cases signature elements :
  signature_to_elements signature = Return elements ->
  (exists packages wildcard,
      is_wildcard wildcard = true /\ signature_member signature = [] /\
      elements = map (append "package:") packages ++ [wildcard]) \/
  (exists packages classes,
      classes <> [] /\
      elements = map (append "package:") packages
                   ++ map (append "class:") classes
                   ++ map (append "member:") (signature_member signature)).
Proof.
  rewrite signature_to_elements_assemble. unfold assemble. cbv zeta.
  destruct (is_wildcard (last (PyStr.split "/" _) EmptyString)) eqn:Ew.
  - destruct (signature_member signature) as [|m ms]; [|discriminate].
    intros [= <-]. left. eauto.
  - intros [= <-]. right. do 2 eexists. split; [|reflexivity].
    apply split_from_not_nil.
Qed.

Lemma tagged_Forall (tag : string) (P : string -> Prop) (names : list string) :
  (forall x, P (append tag x)) -> Forall P (map (append tag) names).
Proof.
  intros H. apply Forall_forall. intros x Hx.
  apply in_map_iff in Hx. now destruct Hx as (y & <- & _).
Qed.

Lemma package_is_package x : PyStr.startswith "package:" ("package:" ++ x) = true.
Proof. unfold PyStr.startswith. simpl. now destruct x. Qed.

Lemma class_is_class x : PyStr.startswith "class:" ("class:" ++ x) = true.
Proof. unfold PyStr.startswith. simpl. now destruct x. Qed.

Lemma last_map_app {A} (f : A -> string) (before : list string) (l : list A) d :
  l <> [] -> exists x, In x l /\ last (before ++ map f l) d = f x.
Proof.
  intros Hl. destruct (exists_last Hl) as (l' & x & ->).
  exists x. split; [apply in_or_app; right; now left|].
  rewrite map_app. cbn [map]. rewrite app_assoc. apply last_last.
Qed.

(** X1: a decomposition is never empty, and its last element tells what the
    input was: it is "*" or "**" only when no member part was given, and
    then every element before it is a package; it starts with "member:"
    exactly when a member part was given; otherwise it starts with
    "class:". *)
Theorem last_element_classifies signature elements :
  signature_to_elements signature = Return elements ->
  elements <> [] /\
  (is_wildcard (last elements EmptyString) = true ->
   signature_member signature = [] /\
   Forall (fun e => PyStr.startswith "package:" e = true) (removelast elements)) /\
  (PyStr.startswith "member:" (last elements EmptyString) = true <->
   signature_member signature <> []) /\
  (signature_member signature = [] ->
   is_wildcard (last elements EmptyString) = false ->
   PyStr.startswith "class:" (last elements EmptyString) = true).
Proof.
  intros He. split; [eapply signature_to_elements_not_nil; eauto|].
  destruct (decomposition_cases _ _ He)
    as [(packages & w & Hw & Hm & ->)|(packages & classes & Hc & ->)].
  - rewrite last_last, removelast_last, Hm. split; [|split].
    + intros _. split; [reflexivity|].
      apply tagged_Forall. apply package_is_package.
    + split; [|intros H; now elim H].
      intros H. apply is_wildcard_not_member in H. congruence.
    + congruence.
  - destruct (signature_member signature) as [|m ms] eqn:Em.
    + change (map (append "member:") []) with (@nil string). rewrite app_nil_r.
      destruct (last_map_app (append "class:") (map (append "package:") packages)
                  classes EmptyString Hc) as (x & _ & ->).
      split; [|split].
      * intros H. discriminate.
      * split; [discriminate | intros H; now elim H].
      * intros _ _. apply class_is_class.
    + rewrite app_assoc.
      destruct (last_map_app (append "member:")
                  (map (append "package:") packages ++ map (append "class:") classes)
                  (m :: ms) EmptyString ltac:(discriminate)) as (x & _ & ->).
      split; [|split].
      * intros H. rewrite is_wildcard_not_member in H by apply member_is_member.
        discriminate.
      * split; [discriminate | intros _; apply member_is_member].
      * discriminate.
Qed.

Lemma removeprefix_marker s : PyStr.removeprefix "L" ("L" ++ s) = s.
Proof. unfold PyStr.removeprefix, PyStr.startswith. simpl. now destruct s. Qed.

Lemma removeprefix_none s :
  PyStr.startswith "L" s = false -> PyStr.removeprefix "L" s = s.
Proof. unfold PyStr.removeprefix. now intros ->. Qed.

(** X2: the leading "L" is optional: a text that does not itself start with
    "L" decomposes the same with and without the marker in front, so [add]
    and [get_matching_rows] treat the two spellings alike. *)
Theorem leading_marker_optional s :
  PyStr.startswith "L" s = false ->
  signature_to_elements ("L" ++ s) = signature_to_elements s /\
  (forall value root, add ("L" ++ s) value root = add s value root) /\
  (forall root, get_matching_rows ("L" ++ s) root = get_matching_rows s root).
Proof.
  intros Hs.
  assert (He : signature_to_elements ("L" ++ s) = signature_to_elements s).
  { unfold signature_to_elements.
    now rewrite removeprefix_marker, (removeprefix_none _ Hs). }
  split; [exact He|]. split.
  - intros value root. now rewrite !add_spec, He.
  - intros root. now rewrite !get_matching_rows_spec, He.
Qed.

(** ** More about [add] *)

Lemma last_member_has_member signature elements :
  signature_to_elements signature = Return elements ->
  PyStr.startswith "member:" (last elements EmptyString) = true ->
  signature_member signature <> [].
Proof.
  intros He Hl Hm.
  destruct (decomposition_cases _ _ He)
    as [(packages & w & Hw & _ & ->)|(packages & classes & Hc & ->)].
  - rewrite last_last in Hl. apply is_wildcard_not_member in Hl. congruence.
  - rewrite Hm in Hl. change (map (append "member:") []) with (@nil string) in Hl.
    rewrite app_nil_r in Hl.
    destruct (last_map_app (append "class:") (map (append "package:") packages)
                classes EmptyString Hc) as (x & _ & Hx).
    rewrite Hx in Hl. discriminate.
Qed.

Lemma member_part_last_member signature elements :
  signature_to_elements signature = Return elements ->
  signature_member signature <> [] ->
  PyStr.startswith "member:" (last elements EmptyString) = true.
Proof.
  intros He Hm.
  destruct (decomposition_cases _ _ He)
    as [(packages & w & Hw & Hm' & _)|(packages & classes & Hc & ->)];
    [contradiction|].
  destruct (signature_member signature) as [|m ms]; [now elim Hm|].
  rewrite app_assoc.
  destruct (last_map_app (append "member:")
              (map (append "package:") packages ++ map (append "class:") classes)
              (m :: ms) EmptyString ltac:(discriminate)) as (y & _ & ->).
  apply member_is_member.
Qed.

Lemma no_member_not_member signature elements :
  signature_to_elements signature = Return elements ->
  signature_member signature = [] ->
  Forall not_member elements.
Proof.
  intros He Hm.
  destruct (decomposition_cases _ _ He)
    as [(packages & w & Hw & _ & ->)|(packages & classes & Hc & ->)].
  - apply Forall_app. split; [apply packages_not_member|].
    constructor; [|constructor]. unfold not_member.
    destruct (PyStr.startswith "member:" w) eqn:E; auto.
    apply is_wildcard_not_member in E. congruence.
  - rewrite Hm. change (map (append "member:") []) with (@nil string).
    rewrite app_nil_r. apply Forall_app.
    split; [apply packages_not_member | apply classes_not_member].
Qed.

Lemma no_member_decomposes signature :
  signature_member signature = [] ->
  exists elements, signature_to_elements signature = Return elements.
Proof.
  intros Hm. destruct (signature_to_elements signature) as [els|e] eqn:E; [eauto|].
  apply signature_to_elements_raises in E. destruct E as (_ & _ & H). contradiction.
Qed.

(** Without a member element the walk of [add] ends in the missing-member
    exception, as long as it meets no leaf. *)
Lemma insert_rec_no_member elements value :
  forall n,
    well_tagged n = true -> is_leaf n = false ->
    Forall not_member elements ->
    snd (insert_rec elements value n) = Raise InvalidMemberSignature.
Proof.
  induction elements as [|e rest IH]; intros n Hw Hk Hf; [reflexivity|].
  inversion Hf as [|? ? He Hrest]; subst.
  destruct rest as [|e' rest'].
  - simpl. unfold insert_last. unfold not_member in He. now rewrite He.
  - destruct n as [nodes|x]; [|discriminate].
    rewrite insert_rec_step. cbn [snd].
    rewrite well_tagged_interior in Hw.
    pose proof (tagged_child_or_new nodes e Hw) as Hc.
    unfold tagged_item in Hc. cbn [fst snd] in Hc.
    apply andb_true_iff in Hc. destruct Hc as [Hl Hwc].
    unfold not_member in He. rewrite He, orb_false_r in Hl.
    apply IH; auto. now apply negb_true_iff.
Qed.

(** X3: [add] needs a member part: a signature without one (a class, a
    package or a wildcard pattern) is never inserted, whatever the trie,
    and on a trie built by [add] calls the call raises the missing-member
    exception. *)
Theorem add_needs_member signature value :
  signature_member signature = [] ->
  (forall root, snd (add signature value root) <> Return tt) /\
  (forall calls,
      snd (add signature value (fst (add_all calls signature_trie))) =
      Raise InvalidMemberSignature).
Proof.
  intros Hm. destruct (no_member_decomposes _ Hm) as [els He]. split.
  - intros root H. rewrite add_spec, He in H.
    destruct (insert_rec els value root) as [root' r] eqn:Ei. simpl in H. subst r.
    apply insert_rec_ok_member in Ei.
    now apply (last_member_has_member _ _ He Ei).
  - intros calls. rewrite add_spec, He.
    apply insert_rec_no_member.
    + apply add_all_well_tagged. reflexivity.
    + now rewrite add_all_kind.
    + eapply no_member_not_member; eauto.
Qed.

Lemma insert_rec_fresh_path elements value :
  elements <> [] ->
  PyStr.startswith "member:" (last elements EmptyString) = true ->
  insert_rec elements value (InteriorNode []) = (path_nodes elements value, Return tt).
Proof.
  induction elements as [|e rest IH]; intros Hne Hl; [now elim Hne|].
  destruct rest as [|e' rest'].
  - simpl in *. unfold insert_last. now rewrite Hl.
  - rewrite insert_rec_step.
    change (child_or_new [] e) with (InteriorNode []).
    change (last (e :: e' :: rest') EmptyString) with (last (e' :: rest') EmptyString) in Hl.
    rewrite IH by (discriminate || assumption). reflexivity.
Qed.

Lemma insert_rec_fresh_empty elements value :
  PyStr.startswith "member:" (last elements EmptyString) = false ->
  insert_rec elements value (InteriorNode []) =
  (empty_nodes (removelast elements), Raise InvalidMemberSignature).
Proof.
  induction elements as [|e rest IH]; intros Hl; [reflexivity|].
  destruct rest as [|e' rest'].
  - simpl in *. unfold insert_last. now rewrite Hl.
  - rewrite insert_rec_step.
    change (child_or_new [] e) with (InteriorNode []).
    change (last (e :: e' :: rest') EmptyString) with (last (e' :: rest') EmptyString) in Hl.
    rewrite IH by assumption. reflexivity.
Qed.

(** X4: what the first [add] leaves in an empty trie: with a member part,
    one node per element, each the only child of the one before, the leaf
    with the value innermost, and the call returns; without one, the same
    chain of interior nodes for all elements but the last, no leaf, and the
    missing-member exception. *)
Theorem first_add_creates_path signature elements value :
  signature_to_elements signature = Return elements ->
  (signature_member signature <> [] ->
   add signature value signature_trie = (path_nodes elements value, Return tt)) /\
  (signature_member signature = [] ->
   add signature value signature_trie =
   (empty_nodes (removelast elements), Raise InvalidMemberSignature)).
Proof.
  intros He. split; intros Hm; rewrite add_spec, He.
  - apply insert_rec_fresh_path.
    + eapply signature_to_elements_not_nil; eauto.
    + eapply member_part_last_member; eauto.
  - apply insert_rec_fresh_empty.
    destruct (PyStr.startswith "member:" (last elements EmptyString)) eqn:E; auto.
    elim (last_member_has_member _ _ He E Hm).
Qed.

Lemma kept_refl m : kept m m.
Proof. now destruct m. Qed.

(** An insertion only adds: every node that was there is still there, a
    leaf with its value, an interior node as an interior node. *)
Lemma insert_rec_keeps_nodes elements value :
  forall n p m,
    deref n p = Some m ->
    exists m', deref (fst (insert_rec elements value n)) p = Some m' /\ kept m m'.
Proof.
  induction elements as [|e rest IH]; intros n p m Hd.
  { exists m. split; [exact Hd | apply kept_refl]. }
  destruct (insert_rec (e :: rest) value n) as [n' r] eqn:Ei. cbn [fst].
  assert (Hsame : n' = n -> exists m', deref n' p = Some m' /\ kept m m').
  { intros ->. exists m. split; [exact Hd | apply kept_refl]. }
  destruct rest as [|e' rest'].
  - apply insert_last_inv in Ei.
    destruct Ei as [(_ & Hn & _)|(_ & [(x & _ & Hn & _)|
                      [(nodes & _ & _ & Hn & _)|(nodes & -> & Hc & -> & _)]])]; auto.
    destruct p as [|k p'].
    + injection Hd as <-. eexists. split; reflexivity.
    + cbn [deref] in *. unfold dict_contains in Hc.
      destruct (String.eqb_spec e k) as [->|Hne].
      * destruct (dict_get nodes k); discriminate.
      * rewrite dict_get_set_other by assumption.
        destruct (dict_get nodes k) as [c|]; [|discriminate].
        exists m. split; [exact Hd | apply kept_refl].
  - apply insert_rec_step_inv in Ei.
    destruct Ei as [(x & _ & Hn & _)|(nodes & c' & -> & Hi & ->)]; auto.
    destruct p as [|k p'].
    + injection Hd as <-. eexists. split; reflexivity.
    + cbn [deref] in *. destruct (String.eqb_spec e k) as [->|Hne].
      * rewrite dict_get_set_same. unfold child_or_new in Hi.
        destruct (dict_get nodes k) as [c|]; [|discriminate].
        specialize (IH c p' m Hd). now rewrite Hi in IH.
      * rewrite dict_get_set_other by assumption.
        destruct (dict_get nodes k) as [c|]; [|discriminate].
        exists m. split; [exact Hd | apply kept_refl].
Qed.

(** X5: [add] only ever adds nodes: whatever the call and its outcome,
    every node of the trie is found under the same keys afterwards, a leaf
    with the value it had and an interior node still an interior node; no
    value is overwritten and no node removed or replaced by a leaf. *)
Theorem add_keeps_nodes signature value root p m :
  deref root p = Some m ->
  exists m',
    deref (fst (add signature value root)) p = Some m' /\
    match m with
    | Leaf x => m' = Leaf x
    | InteriorNode _ => is_leaf m' = false
    end.
Proof.
  intros Hd. rewrite add_spec.
  destruct (signature_to_elements signature) as [els|e].
  - apply (insert_rec_keeps_nodes els value _ _ _ Hd).
  - exists m. split; [exact Hd | now destruct m].
Qed.

(** ** More about [values] and [append_values] *)

Lemma append_values_flat nodes selector :
  forall acc,
    append_values (InteriorNode nodes) acc selector =
    acc ++ flat_map
             (fun item =>
                if selector (fst item) then values (snd item) (fun _ => true) else [])
             nodes.
Proof.
  induction nodes as [|[k c] items IH]; intros acc.
  - simpl. now rewrite app_nil_r.
  - change (append_values (InteriorNode ((k, c) :: items)) acc selector)
      with (append_values (InteriorNode items)
              (if selector k then append_values c acc (fun _ => true) else acc) selector).
    rewrite IH. cbn [flat_map fst snd]. rewrite app_assoc. f_equal.
    destruct (selector k).
    + rewrite append_values_acc. f_equal. now destruct c.
    + now rewrite app_nil_r.
Qed.

(** X6: the selector is asked about the keys of the node [values] is called
    on and about nothing below: an interior node returns, in [items()]
    order, everything under each child whose key the selector accepts and
    nothing of the others; a leaf returns its value whatever the
    selector. *)
Theorem values_by_child :
  (forall nodes selector,
      values (InteriorNode nodes) selector =
      flat_map
        (fun item =>
           if selector (fst item) then values (snd item) (fun _ => true) else [])
        nodes) /\
  (forall value selector, values (Leaf value) selector = [[value]]).
Proof.
  split; [|reflexivity].
  intros nodes selector. unfold values. now rewrite append_values_flat.
Qed.

Lemma append_values_rows n :
  forall selector,
    Forall (fun row => length row = 1%nat) (append_values n [] selector).
Proof.
  induction n as [value|nodes IH] using Node_children_ind; intros selector.
  - repeat constructor.
  - rewrite append_values_flat. cbn [app].
    induction IH as [|[k c] items Hc _ IHitems]; [constructor|].
    cbn [flat_map fst snd]. apply Forall_app. split; [|exact IHitems].
    destruct (selector k); [|constructor].
    destruct c as [nodes'|x]; [apply Hc | repeat constructor].
Qed.

(** X7: [append_values] only appends: what the list held stays in front,
    unchanged, what is added does not depend on it, and every row added
    holds exactly one value. *)
Theorem append_values_appends n acc selector :
  append_values n acc selector = acc ++ append_values n [] selector /\
  Forall (fun row => length row = 1%nat) (append_values n [] selector).
Proof. split; [apply append_values_acc | apply append_values_rows]. Qed.

(** ** More about lookups *)

(** X8: a successful [add] changes the answer of exactly the lookups that
    reach the new leaf, and only by its value: whenever a lookup returns on
    the trie after the call, it returned on the trie before it, and the new
    answer is the old one plus, when the walk follows the elements of the
    signature and the selector accepts the element after it, the inserted
    value. *)
Theorem add_extends_answers signature elements value root root' :
  add signature value root = (root', Return tt) ->
  signature_to_elements signature = Return elements ->
  forall pattern walked rows',
    signature_to_elements pattern = Return walked ->
    get_matching_rows pattern root' = (root', Return rows') ->
    exists rows,
      get_matching_rows pattern root = (root, Return rows) /\
      Permutation rows'
        ((if reaches (walk_elements walked) (pattern_selector walked) elements
          then [value] else []) ++ rows).
Proof.
  rewrite add_spec. intros Ha He pattern walked rows' Hp Hl.
  rewrite He in Ha. rewrite get_matching_rows_spec, Hp in *.
  injection Hl as Hl.
  destruct (insert_rec_find_step _ _ _ _ _ _ _ Ha Hl) as (rows & Hrows & Hperm).
  exists rows. now rewrite Hrows.
Qed.

Lemma reaches_all_iff walked :
  forall elements,
    reaches walked select_all elements = true <->
    exists rest, elements = walked ++ rest.
Proof.
  induction walked as [|w ws IH]; intros elements.
  - split; [intros _; now exists elements | intros _; now destruct elements].
  - destruct elements as [|e es]; cbn [reaches].
    + split; [discriminate | intros [rest [=]]].
    + rewrite andb_true_iff, String.eqb_eq, IH. split.
      * intros [-> [rest ->]]. now exists rest.
      * intros [rest [= -> ->]]. split; [reflexivity | now exists rest].
Qed.

(** X9: on a trie built by [add] calls, a lookup whose pattern has at most
    one member part and does not end in "*" (a signature, a class, a nested
    class, or a "**" pattern) returns, up to order, the values of exactly
    those calls that returned normally and whose elements begin with the
    elements the lookup walks. *)
Theorem lookup_returns_extensions calls pattern walked :
  signature_to_elements pattern = Return walked ->
  (length (signature_member pattern) <= 1)%nat ->
  last walked EmptyString <> "*" ->
  exists rows,
    get_matching_rows pattern (fst (add_all calls signature_trie)) =
    (fst (add_all calls signature_trie), Return rows) /\
    Permutation rows
      (map snd (filter (call_reached (walk_elements walked) select_all)
                  (snd (add_all calls signature_trie)))) /\
    (forall call,
        call_reached (walk_elements walked) select_all call = true <->
        exists elements rest,
          signature_to_elements (fst call) = Return elements /\
          elements = walk_elements walked ++ rest).
Proof.
  intros Hp Hlen Hstar.
  destruct (built_lookup calls pattern walked Hp Hlen) as (rows & Hrows & Hperm).
  exists rows. split; [exact Hrows|]. split.
  - replace (pattern_selector walked) with select_all in Hperm; [exact Hperm|].
    unfold pattern_selector. destruct (is_wildcard (last walked EmptyString)); auto.
    destruct (String.eqb_spec (last walked EmptyString) "*"); [contradiction | reflexivity].
  - intros call. unfold call_reached.
    destruct (signature_to_elements (fst call)) as [els|e].
    + rewrite reaches_all_iff. split.
      * intros [rest ->]. eauto.
      * intros (els' & rest & [= <-] & ->). eauto.
    + split; [discriminate | intros (els' & rest & [=] & _)].
Qed.

(** A walk raises exactly when it has to go on from a leaf. *)
Lemma find_rec_raises walked selector :
  forall n e,
    find_rec walked selector n = Raise e <->
    e = AttributeError /\
    exists before after x,
      walked = before ++ after /\ after <> [] /\ deref n before = Some (Leaf x).
Proof.
  induction walked as [|w ws IH]; intros n e.
  - split; [discriminate|].
    intros (_ & before & after & x & H & Ha & _).
    symmetry in H. apply app_eq_nil in H. destruct H as [_ ->]. now elim Ha.
  - cbn [find_rec]. destruct n as [nodes|x].
    + destruct (dict_get nodes w) as [c|] eqn:Ec.
      * rewrite IH. split.
        -- intros (-> & before & after & x & -> & Ha & Hd). split; [reflexivity|].
           exists (w :: before), after, x. repeat split; auto.
           cbn [deref]. now rewrite Ec.
        -- intros (-> & before & after & x & H & Ha & Hd). split; [reflexivity|].
           destruct before as [|b before']; [discriminate|].
           injection H as <- ->. cbn [deref] in Hd. rewrite Ec in Hd.
           exists before', after, x. auto.
      * split; [discriminate|].
        intros (_ & before & after & x & H & Ha & Hd).
        destruct before as [|b before']; [discriminate|].
        injection H as <- ->. cbn [deref] in Hd. now rewrite Ec in Hd.
    + split.
      * intros [= <-]. split; [reflexivity|].
        exists [], (w :: ws), x. repeat split; auto. discriminate.
      * intros (-> & _). reflexivity.
Qed.

(** X10: the ways [get_matching_rows] can fail: it raises the
    malformed-pattern exception exactly when the decomposition does, it
    raises [AttributeError] exactly when the walk reaches a leaf with
    elements still to go, it raises nothing else, and in every case the
    trie is as it was. *)
Theorem lookup_failures pattern root :
  fst (get_matching_rows pattern root) = root /\
  (forall e,
      snd (get_matching_rows pattern root) = Raise e ->
      e = MalformedPattern \/ e = AttributeError) /\
  (snd (get_matching_rows pattern root) = Raise MalformedPattern <->
   signature_to_elements pattern = Raise MalformedPattern) /\
  (snd (get_matching_rows pattern root) = Raise AttributeError <->
   exists elements before after x,
     signature_to_elements pattern = Return elements /\
     walk_elements elements = before ++ after /\ after <> [] /\
     deref root before = Some (Leaf x)).
Proof.
  rewrite get_matching_rows_spec.
  destruct (signature_to_elements pattern) as [els|e0] eqn:Ep; cbn [fst snd].
  - split; [reflexivity|]. split; [|split].
    + intros e H. apply find_rec_raises in H. right. apply H.
    + split; [|discriminate].
      intros H. apply find_rec_raises in H. destruct H as [[=] _].
    + rewrite find_rec_raises. split.
      * intros (_ & before & after & x & H1 & H2 & H3).
        exists els, before, after, x. auto.
      * intros (els' & before & after & x & [= <-] & H1 & H2 & H3).
        split; [reflexivity|]. exists before, after, x. auto.
  - assert (e0 = MalformedPattern) as ->.
    { apply signature_to_elements_raises in Ep. apply Ep. }
    split; [reflexivity|]. split; [|split].
    + intros e [= <-]. now left.
    + split; reflexivity.
    + split; [discriminate|]. intros (els & _ & _ & _ & [=] & _).
Qed.

Lemma insert_rec_deref elements value :
  forall n n',
    insert_rec elements value n = (n', Return tt) ->
    deref n' elements = Some (Leaf value).
Proof.
  induction elements as [|e rest IH]; intros n n'; [discriminate|].
  destruct rest as [|e' rest'].
  - intros H. apply insert_last_inv in H.
    destruct H as [(_ & _ & [=])|(_ & [(x & _ & _ & [=])|
                     [(nodes & _ & _ & _ & [=])|(nodes & -> & _ & -> & _)]])].
    cbn [deref]. now rewrite dict_get_set_same.
  - intros H. apply insert_rec_step_inv in H.
    destruct H as [(x & _ & _ & [=])|(nodes & c' & -> & H & ->)].
    cbn [deref]. rewrite dict_get_set_same. eauto.
Qed.

(** Below a leaf [add] fails on the missing [nodes] and changes nothing. *)
Lemma insert_rec_below_leaf value extra :
  extra <> [] ->
  forall elements n x,
    deref n elements = Some (Leaf x) ->
    PyStr.startswith "member:" (last (elements ++ extra) EmptyString) = true ->
    insert_rec (elements ++ extra) value n = (n, Raise AttributeError).
Proof.
  intros Hx. induction elements as [|k els IH]; intros n x Hd Hl.
  - injection Hd as ->. cbn [app] in *.
    destruct extra as [|e [|e' rest]]; [now elim Hx| |reflexivity].
    simpl in *. unfold insert_last. now rewrite Hl.
  - cbn [deref] in Hd. destruct n as [nodes|y]; [|discriminate].
    destruct (dict_get nodes k) as [c|] eqn:Ek; [|discriminate].
    cbn [app] in *. remember (els ++ extra) as r eqn:Er.
    destruct r as [|e' r'].
    { symmetry in Er. apply app_eq_nil in Er. destruct Er as [_ ->]. now elim Hx. }
    rewrite insert_rec_step. unfold child_or_new. rewrite Ek.
    change (last (k :: e' :: r') EmptyString) with (last (e' :: r') EmptyString) in Hl.
    rewrite (IH c x Hd Hl). cbn [fst snd].
    now rewrite dict_set_get_id.
Qed.

(** X11: a signature that continues a stored one past its member part makes
    both operations fail on the leaf: once [add s] has returned normally,
    for every [s2] whose elements are those of [s] followed by more, [add]
    and [get_matching_rows] raise [AttributeError] and leave the trie as it
    is. *)
Theorem continuing_below_a_leaf_raises s elements value root root' :
  add s value root = (root', Return tt) ->
  signature_to_elements s = Return elements ->
  forall s2 extra value2,
    extra <> [] ->
    signature_to_elements s2 = Return (elements ++ extra) ->
    add s2 value2 root' = (root', Raise AttributeError) /\
    get_matching_rows s2 root' = (root', Raise AttributeError).
Proof.
  rewrite add_spec. intros Ha He s2 extra value2 Hx H2. rewrite He in Ha.
  pose proof (insert_rec_deref _ _ _ _ Ha) as Hd.
  pose proof (insert_rec_ok_member _ _ _ _ Ha) as Hm.
  assert (Hne : elements <> []) by (eapply signature_to_elements_not_nil; eauto).
  assert (Hm2 : signature_member s2 <> []).
  { intros H0. pose proof (no_member_not_member _ _ H2 H0) as Hf.
    apply Forall_app in Hf. destruct Hf as [Hf _].
    pose proof (last_Forall not_member elements EmptyString Hne Hf) as Hl.
    unfold not_member in Hl. congruence. }
  assert (Hl2 : PyStr.startswith "member:" (last (elements ++ extra) EmptyString) = true)
    by (eapply member_part_last_member; eauto).
  split.
  - rewrite add_spec, H2. eapply insert_rec_below_leaf; eauto.
  - rewrite get_matching_rows_spec, H2. f_equal.
    rewrite (walk_elements_member _ Hl2).
    apply find_rec_raises. split; [reflexivity|].
    exists elements, extra, value. auto.
Qed.

(** ** Leaves and accepted calls *)

Lemma deref_empty_leaf p x : deref (InteriorNode []) p <> Some (Leaf x).
Proof. destruct p; discriminate. Qed.

(** A leaf found after an insertion was there before or is the new one. *)
Lemma insert_rec_leaf_origin elements value :
  forall n p x,
    deref (fst (insert_rec elements value n)) p = Some (Leaf x) ->
    deref n p = Some (Leaf x) \/
    (p = elements /\ x = value /\ snd (insert_rec elements value n) = Return tt).
Proof.
  induction elements as [|e rest IH]; intros n p x; [now left|].
  destruct (insert_rec (e :: rest) value n) as [n' r] eqn:Ei. cbn [fst snd].
  destruct rest as [|e' rest'].
  - apply insert_last_inv in Ei.
    destruct Ei as [(_ & -> & _)|(_ & [(y & _ & -> & _)|
                      [(nodes & _ & _ & -> & _)|(nodes & -> & Hc & -> & ->)]])]; auto.
    destruct p as [|k p']; [discriminate|]. cbn [deref].
    destruct (String.eqb_spec e k) as [->|Hne].
    + rewrite dict_get_set_same. destruct p' as [|k' p'']; [|discriminate].
      intros [= <-]. now right.
    + rewrite dict_get_set_other by assumption. now left.
  - apply insert_rec_step_inv in Ei.
    destruct Ei as [(y & _ & -> & _)|(nodes & c' & -> & Hi & ->)]; auto.
    destruct p as [|k p']; [discriminate|]. cbn [deref].
    destruct (String.eqb_spec e k) as [->|Hne].
    + rewrite dict_get_set_same. intros Hd.
      specialize (IH (child_or_new nodes k) p' x). rewrite Hi in IH.
      destruct (IH Hd) as [Hold|(-> & -> & Hr)].
      * left. unfold child_or_new in Hold.
        destruct (dict_get nodes k); [exact Hold|].
        now apply deref_empty_leaf in Hold.
      * right. auto.
    + rewrite dict_get_set_other by assumption. now left.
Qed.

Lemma add_keeps_leaf signature value root p x :
  deref root p = Some (Leaf x) ->
  deref (fst (add signature value root)) p = Some (Leaf x).
Proof.
  intros Hd. rewrite add_spec.
  destruct (signature_to_elements signature) as [els|e]; [|exact Hd].
  destruct (insert_rec_keeps_nodes els value _ _ _ Hd) as (m' & Hm & Hk).
  simpl in Hk. now subst m'.
Qed.

Lemma add_all_keeps_leaf calls :
  forall root p x,
    deref root p = Some (Leaf x) ->
    deref (fst (add_all calls root)) p = Some (Leaf x).
Proof.
  induction calls as [|[s v] calls IH]; intros root p x Hd; simpl; auto.
  pose proof (add_keeps_leaf s v root p x Hd) as H1.
  destruct (add s v root) as [root' [[]|e]]; simpl in H1.
  - specialize (IH root' p x H1). now destruct (add_all calls root').
  - now apply IH.
Qed.

Lemma add_all_leaf_origin calls :
  forall root p x,
    deref (fst (add_all calls root)) p = Some (Leaf x) ->
    deref root p = Some (Leaf x) \/
    exists s, In (s, x) (snd (add_all calls root)) /\
              signature_to_elements s = Return p.
Proof.
  induction calls as [|[s v] calls IH]; intros root p x; simpl; auto.
  destruct (add s v root) as [root' r] eqn:Ea.
  assert (Hstep : deref root' p = Some (Leaf x) ->
                  deref root p = Some (Leaf x) \/
                  (r = Return tt /\ x = v /\ signature_to_elements s = Return p)).
  { rewrite add_spec in Ea.
    destruct (signature_to_elements s) as [els|e]; [|injection Ea as <- _; auto].
    intros Hd. replace root' with (fst (insert_rec els v root)) in Hd by now rewrite Ea.
    destruct (insert_rec_leaf_origin _ _ _ _ _ Hd) as [H|(-> & -> & Hr)]; auto.
    right. rewrite Ea in Hr. auto. }
  destruct r as [[]|e].
  - specialize (IH root' p x). destruct (add_all calls root') as [final added].
    simpl in *. intros Hd.
    destruct (IH Hd) as [H|(s0 & Hin & Hs0)].
    + destruct (Hstep H) as [H'|(_ & -> & Hs)]; auto. right. exists s. auto.
    + right. exists s0. auto.
  - intros Hd. destruct (IH root' p x Hd) as [H|H]; auto.
    destruct (Hstep H) as [H'|([=] & _)]; auto.
Qed.

Lemma add_all_accepted_leaf calls :
  forall root s x elements,
    In (s, x) (snd (add_all calls root)) ->
    signature_to_elements s = Return elements ->
    deref (fst (add_all calls root)) elements = Some (Leaf x).
Proof.
  induction calls as [|[s v] calls IH]; intros root s0 x els; simpl; [contradiction|].
  destruct (add s v root) as [root' [[]|e]] eqn:Ea.
  - pose proof (add_all_keeps_leaf calls root') as Hk.
    specialize (IH root' s0 x els).
    destruct (add_all calls root') as [final added]. simpl in *.
    intros [[= -> ->]|Hin] He; [|auto].
    apply Hk. rewrite add_spec, He in Ea. eapply insert_rec_deref; eauto.
  - apply IH.
Qed.

(** X12: the leaves of a trie built by [add] calls are the calls that
    returned normally: a leaf with value [x] hangs at the end of the keys
    [p] exactly when some call with value [x] and a signature whose
    elements are [p] returned normally. *)
Theorem leaves_are_accepted_calls calls p x :
  deref (fst (add_all calls signature_trie)) p = Some (Leaf x) <->
  exists s, In (s, x) (snd (add_all calls signature_trie)) /\
            signature_to_elements s = Return p.
Proof.
  split.
  - intros Hd. destruct (add_all_leaf_origin _ _ _ _ Hd) as [H|H]; auto.
    now apply deref_empty_leaf in H.
  - intros (s & Hin & Hs). eapply add_all_accepted_leaf; eauto.
Qed.

(** ** Duplicates *)

Lemma strictly_tagged_interior nodes :
  strictly_tagged (InteriorNode nodes) = forallb strict_item nodes.
Proof. reflexivity. Qed.

Lemma one_separator_tags signature elements :
  signature_to_elements signature = Return elements ->
  (length (signature_member signature) <= 1)%nat ->
  Forall not_member (removelast elements).
Proof.
  intros He Hlen.
  destruct (decomposition_cases _ _ He)
    as [(packages & w & Hw & _ & ->)|(packages & classes & Hc & ->)].
  - rewrite removelast_last. apply packages_not_member.
  - destruct (signature_member signature) as [|m [|m' ms]]; simpl in Hlen; [| |lia].
    + change (map (append "member:") []) with (@nil string). rewrite app_nil_r.
      apply Forall_removelast, Forall_app.
      split; [apply packages_not_member | apply classes_not_member].
    + change (map (append "member:") [m]) with [append "member:" m].
      rewrite app_assoc, removelast_last. apply Forall_app.
      split; [apply packages_not_member | apply classes_not_member].
Qed.

Lemma strict_child_or_new nodes e :
  forallb strict_item nodes = true -> not_member e ->
  strictly_tagged (child_or_new nodes e) = true /\
  is_leaf (child_or_new nodes e) = false.
Proof.
  intros Hs He. unfold child_or_new.
  destruct (dict_get nodes e) as [c|] eqn:E; [|split; reflexivity].
  rewrite forallb_forall in Hs. specialize (Hs _ (dict_get_In _ _ _ E)).
  unfold strict_item in Hs. cbn [fst snd] in Hs.
  apply andb_true_iff in Hs. destruct Hs as [Hk Hc].
  unfold not_member in He. rewrite He in Hk.
  split; [exact Hc|]. now destruct (is_leaf c).
Qed.

Lemma insert_rec_strict elements value :
  forall n,
    strictly_tagged n = true ->
    Forall not_member (removelast elements) ->
    strictly_tagged (fst (insert_rec elements value n)) = true.
Proof.
  induction elements as [|e rest IH]; intros n Hn Hf; [exact Hn|].
  destruct rest as [|e' rest'].
  - simpl. unfold insert_last.
    destruct (PyStr.startswith "member:" e) eqn:Em; simpl; [|exact Hn].
    destruct n as [nodes|x]; [|exact Hn].
    destruct (dict_contains nodes e); [exact Hn|].
    cbn [fst]. rewrite strictly_tagged_interior in *.
    apply forallb_dict_set; auto.
    unfold strict_item. simpl. now rewrite Em.
  - destruct n as [nodes|x]; [|now rewrite insert_rec_cons].
    change (removelast (e :: e' :: rest')) with (e :: removelast (e' :: rest')) in Hf.
    inversion Hf as [|? ? He Hrest]; subst.
    rewrite insert_rec_step. cbn [fst]. rewrite strictly_tagged_interior in *.
    destruct (strict_child_or_new nodes e Hn He) as [Hc Hk].
    apply forallb_dict_set; auto.
    unfold strict_item. cbn [fst snd].
    unfold not_member in He. now rewrite insert_rec_kind, Hk, He, IH.
Qed.

Lemma add_all_strict calls :
  Forall one_separator calls ->
  forall root,
    strictly_tagged root = true ->
    strictly_tagged (fst (add_all calls root)) = true.
Proof.
  induction 1 as [|[s v] calls Hs Hcalls IH]; intros root Hr; simpl; auto.
  assert (H1 : strictly_tagged (fst (add s v root)) = true).
  { rewrite add_spec.
    destruct (signature_to_elements s) as [els|e] eqn:Es; [|exact Hr].
    apply insert_rec_strict; auto. eapply one_separator_tags; eauto. }
  destruct (add s v root) as [root' [[]|e]]; simpl in H1.
  - specialize (IH root' H1). now destruct (add_all calls root').
  - auto.
Qed.

(** In such a trie a signature with its member part is either new or has
    its leaf already. *)
Lemma insert_rec_new_or_stored elements value :
  forall n,
    strictly_tagged n = true -> is_leaf n = false ->
    elements <> [] ->
    Forall not_member (removelast elements) ->
    PyStr.startswith "member:" (last elements EmptyString) = true ->
    (snd (insert_rec elements value n) = Raise DuplicateSignature /\
     exists x, deref n elements = Some (Leaf x)) \/
    (snd (insert_rec elements value n) = Return tt /\ deref n elements = None).
Proof.
  induction elements as [|e rest IH]; intros n Hn Hk Hne Hf Hl; [now elim Hne|].
  destruct n as [nodes|y]; [|discriminate].
  destruct rest as [|e' rest'].
  - simpl in Hl. simpl. unfold insert_last, dict_contains. rewrite Hl. simpl.
    destruct (dict_get nodes e) as [c|] eqn:Ec; [left | right; auto].
    split; [reflexivity|].
    rewrite strictly_tagged_interior, forallb_forall in Hn.
    specialize (Hn _ (dict_get_In _ _ _ Ec)).
    unfold strict_item in Hn. cbn [fst snd] in Hn. rewrite Hl in Hn.
    destruct c as [nodes'|x]; [discriminate | eauto].
  - change (removelast (e :: e' :: rest')) with (e :: removelast (e' :: rest')) in Hf.
    change (last (e :: e' :: rest') EmptyString) with (last (e' :: rest') EmptyString) in Hl.
    inversion Hf as [|? ? He Hrest]; subst.
    rewrite strictly_tagged_interior in Hn.
    destruct (strict_child_or_new nodes e Hn He) as [Hc Hkc].
    rewrite insert_rec_step. cbn [snd deref].
    destruct (IH (child_or_new nodes e) Hc Hkc ltac:(discriminate) Hrest Hl)
      as [(Hr & x & Hd)|(Hr & Hd)]; [left | right]; (split; [exact Hr|]);
      unfold child_or_new in Hd; destruct (dict_get nodes e); eauto.
Qed.

(** X13: as long as no signature has more than one ";->", duplicates are
    detected exactly: on a trie built by such calls, [add] with a signature
    that has one member part raises the duplicate-signature exception
    exactly when a call that returned normally had the same elements, and
    returns normally exactly when none had. *)
Theorem duplicates_detected_exactly calls signature elements value :
  Forall one_separator calls ->
  signature_to_elements signature = Return elements ->
  length (signature_member signature) = 1%nat ->
  (snd (add signature value (fst (add_all calls signature_trie)))
   = Raise DuplicateSignature <->
   exists s x, In (s, x) (snd (add_all calls signature_trie)) /\
               signature_to_elements s = Return elements) /\
  (snd (add signature value (fst (add_all calls signature_trie))) = Return tt <->
   forall s x, In (s, x) (snd (add_all calls signature_trie)) ->
               signature_to_elements s <> Return elements).
Proof.
  intros Hcalls He Hlen. rewrite add_spec, He.
  assert (Hl : PyStr.startswith "member:" (last elements EmptyString) = true).
  { eapply member_part_last_member; eauto. intros H0. rewrite H0 in Hlen. discriminate. }
  destruct (insert_rec_new_or_stored elements value (fst (add_all calls signature_trie)))
    as [(Hr & x & Hd)|(Hr & Hd)]; auto.
  - now apply add_all_strict.
  - now rewrite add_all_kind.
  - eapply signature_to_elements_not_nil; eauto.
  - eapply one_separator_tags; eauto. lia.
  - rewrite Hr. split.
    + split; [intros _|reflexivity].
      destruct (add_all_leaf_origin _ _ _ _ Hd) as [H|(s & Hin & Hs)]; eauto.
      now apply deref_empty_leaf in H.
    + split; [discriminate|]. intros Hnone. exfalso.
      destruct (add_all_leaf_origin _ _ _ _ Hd) as [H|(s & Hin & Hs)].
      * now apply deref_empty_leaf in H.
      * exact (Hnone _ _ Hin Hs).
  - rewrite Hr. split.
    + split; [discriminate|]. intros (s & x & Hin & Hs).
      rewrite (add_all_accepted_leaf _ _ _ _ _ Hin Hs) in Hd. discriminate.
    + split; [intros _|reflexivity]. intros s x Hin Hs.
      rewrite (add_all_accepted_leaf _ _ _ _ _ Hin Hs) in Hd. discriminate.
Qed.

(** Along the elements of a stored signature every node is there already. *)
Lemma insert_rec_prefix_again value value' suffix :
  suffix <> [] ->
  forall prefix n n',
    prefix <> [] ->
    insert_rec (prefix ++ suffix) value n = (n', Return tt) ->
    PyStr.startswith "member:" (last prefix EmptyString) = true ->
    insert_rec prefix value' n' = (n', Raise DuplicateSignature).
Proof.
  intros Hs. induction prefix as [|k rest IH]; intros n n' Hne Hi Hl; [now elim Hne|].
  cbn [app] in Hi. remember (rest ++ suffix) as r eqn:Er.
  destruct r as [|e' r'].
  { symmetry in Er. apply app_eq_nil in Er. destruct Er as [_ ->]. now elim Hs. }
  apply insert_rec_step_inv in Hi.
  destruct Hi as [(x & _ & _ & [=])|(nodes & c' & -> & Hi & ->)].
  destruct rest as [|k' rest'].
  - simpl in *. unfold insert_last, dict_contains.
    now rewrite Hl, dict_get_set_same.
  - change (last (k :: k' :: rest') EmptyString) with (last (k' :: rest') EmptyString) in Hl.
    rewrite insert_rec_step. unfold child_or_new at 1 2.
    rewrite dict_get_set_same.
    rewrite (IH _ _ ltac:(discriminate) Hi Hl). cbn [fst snd].
    now rewrite dict_set_set.
Qed.

(** X14: the duplicate check looks at the last key only: once a signature
    whose elements continue those of [s] past its member part has been
    inserted, [add s] raises the duplicate-signature exception although
    [s] itself was never inserted, the trie stays as it is, and
    [get_matching_rows s] returns a collection that holds the value of the
    longer signature. *)
Theorem shorter_signature_reported_duplicate
    longer s elements extra value value' root root' :
  add longer value root = (root', Return tt) ->
  signature_to_elements longer = Return (elements ++ extra) ->
  extra <> [] ->
  signature_to_elements s = Return elements ->
  signature_member s <> [] ->
  add s value' root' = (root', Raise DuplicateSignature) /\
  exists rows, get_matching_rows s root' = (root', Return rows) /\ In value rows.
Proof.
  rewrite add_spec. intros Ha Hlong Hx Hs Hm. rewrite Hlong in Ha.
  assert (Hne : elements <> []) by (eapply signature_to_elements_not_nil; eauto).
  assert (Hl : PyStr.startswith "member:" (last elements EmptyString) = true)
    by (eapply member_part_last_member; eauto).
  split.
  - rewrite add_spec, Hs.
    exact (insert_rec_prefix_again value value' extra Hx elements root root' Hne Ha Hl).
  - destruct (insert_rec_prefix_find value elements extra Hx _ _ Ha) as (rows & Hr & Hin).
    exists rows. split; [|exact Hin].
    rewrite get_matching_rows_spec, Hs.
    rewrite (walk_elements_member _ Hl).
    unfold pattern_selector. rewrite (is_wildcard_not_member _ Hl). now rewrite Hr.
Qed.

(** ** Decomposition loses nothing *)

Lemma startswith_drop sep :
  forall s,
    PyStr.startswith sep s = true ->
    s = (sep ++ PyStr.drop (String.length sep) s)%string.
Proof.
  unfold PyStr.startswith.
  induction sep as [|a sep IH]; intros s H.
  - now destruct s.
  - destruct s as [|b s']; [discriminate|]. simpl in H.
    destruct (Ascii.ascii_dec a b) as [->|]; [|discriminate].
    simpl. f_equal. now apply IH.
Qed.

Lemma drop_length k : forall s, (String.length (PyStr.drop k s) <= String.length s)%nat.
Proof.
  induction k as [|k IH]; intros s; [now destruct s|].
  destruct s as [|c s']; simpl; auto.
Qed.

Lemma partition_some sep s before after :
  sep <> EmptyString ->
  PyStr.partition sep s = (before, Some after) ->
  s = (before ++ sep ++ after)%string /\
  (String.length after < String.length s)%nat.
Proof.
  intros Hsep. revert before.
  induction s as [|c s' IH]; intros before; cbn [PyStr.partition].
  - destruct sep as [|a sep']; [now elim Hsep | discriminate].
  - destruct (PyStr.startswith sep (String c s')) eqn:E.
    + intros [= <- <-]. split; [now apply startswith_drop|].
      destruct sep as [|a sep']; [now elim Hsep|].
      simpl. pose proof (drop_length (String.length sep') s'). lia.
    + destruct (PyStr.partition sep s') as [b [a|]]; [|discriminate].
      intros [= <- <-]. destruct (IH b eq_refl) as [-> Hlen].
      split; [reflexivity | simpl; lia].
Qed.

Lemma partition_none sep s before :
  PyStr.partition sep s = (before, None) -> before = s.
Proof.
  revert before. induction s as [|c s' IH]; intros before; cbn [PyStr.partition].
  - destruct (PyStr.startswith sep EmptyString); [discriminate | now intros [= <-]].
  - destruct (PyStr.startswith sep (String c s')); [discriminate|].
    destruct (PyStr.partition sep s') as [b [a|]]; [discriminate|].
    intros [= <-]. f_equal. now apply IH.
Qed.

Lemma join_cons sep piece rest :
  rest <> [] -> join sep (piece :: rest) = (piece ++ sep ++ join sep rest)%string.
Proof. destruct rest; [intros H; now elim H | reflexivity]. Qed.

(** Joining the pieces of a split gives the text back. *)
Lemma join_split sep s :
  sep <> EmptyString -> join sep (PyStr.split sep s) = s.
Proof.
  intros Hsep.
  assert (H : forall n s, (String.length s < n)%nat -> join sep (PyStr.split sep s) = s).
  { induction n as [|n IH]; intros t Hn; [lia|].
    rewrite split_partition by assumption.
    destruct (PyStr.partition sep t) as [before [after|]] eqn:Ep.
    - destruct (partition_some _ _ _ _ Hsep Ep) as [-> Hlen].
      rewrite join_cons by apply split_from_not_nil.
      rewrite IH by lia. reflexivity.
    - apply partition_none in Ep. now subst. }
  apply (H (S (String.length s))). lia.
Qed.

Lemma append_inj tag x y : append tag x = append tag y -> x = y.
Proof. induction tag as [|a tag IH]; simpl; [auto | intros [= H]; auto]. Qed.

Lemma map_append_inj tag (l1 l2 : list string) :
  map (append tag) l1 = map (append tag) l2 -> l1 = l2.
Proof.
  revert l2. induction l1 as [|x l1 IH]; intros [|y l2]; simpl; try discriminate; auto.
  intros [= Hx Hl]. apply append_inj in Hx. subst. f_equal. auto.
Qed.

(** Two lists that change from elements with a property to elements
    without it at one place each are equal only piece by piece. *)
Lemma tagged_app_inj (P : string -> bool) (a1 a2 b1 b2 : list string) :
  Forall (fun x => P x = true) a1 -> Forall (fun x => P x = true) a2 ->
  (forall x rest, b1 = x :: rest -> P x = false) ->
  (forall x rest, b2 = x :: rest -> P x = false) ->
  a1 ++ b1 = a2 ++ b2 -> a1 = a2 /\ b1 = b2.
Proof.
  intros H1. revert a2. induction H1 as [|x a1 Hx _ IH]; intros a2 H2 Hb1 Hb2 Heq.
  - destruct H2 as [|y a2 Hy _]; [auto|]. simpl in Heq.
    rewrite (Hb1 _ _ Heq) in Hy. discriminate.
  - destruct H2 as [|y a2 Hy H2].
    + simpl in Heq. symmetry in Heq. rewrite (Hb2 _ _ Heq) in Hx. discriminate.
    + simpl in Heq. injection Heq as -> Heq.
      destruct (IH a2 H2 Hb1 Hb2 Heq) as [-> ->]. auto.
Qed.

Lemma signature_text_rebuild signature :
  signature_text signature =
  rebuild (removelast (PyStr.split "/" (hd EmptyString (signature_parts signature))))
    (signature_class_name signature) (signature_member signature).
Proof.
  unfold rebuild, signature_class_name, signature_member.
  rewrite <- app_removelast_last by apply split_from_not_nil.
  rewrite join_split by discriminate.
  pose proof (signature_parts_not_nil signature) as Hne.
  unfold signature_parts in *.
  rewrite <- (join_split ";->" (signature_text signature)) at 1 by discriminate.
  destruct (PyStr.split ";->" (signature_text signature)); [now elim Hne | reflexivity].
Qed.

Lemma tagged_last_not_wildcard packages classes member :
  classes <> [] ->
  is_wildcard
    (last (map (append "package:") packages
             ++ map (append "class:") classes
             ++ map (append "member:") member) EmptyString) = false.
Proof.
  intros Hc. apply (last_Forall (fun x => is_wildcard x = false)).
  - intros H. apply app_eq_nil in H. destruct H as [_ H].
    apply app_eq_nil in H. destruct H as [H _].
    apply map_eq_nil in H. contradiction.
  - repeat (apply Forall_app; split); apply map_not_wildcard; intros x; reflexivity.
Qed.

Lemma Return_inj {A} (a b : A) : Return a = Return b -> a = b.
Proof. now intros [=]. Qed.

(** X15: nothing is lost in the decomposition: two texts decompose into
    the same elements only if they are the same text once the leading "L"
    is removed, so signatures that differ in more than the marker never
    share a path in the trie. *)
Theorem decomposition_injective s1 s2 elements :
  signature_to_elements s1 = Return elements ->
  (signature_to_elements s2 = Return elements <->
   PyStr.removeprefix "L" s2 = PyStr.removeprefix "L" s1).
Proof.
  intros H1. split.
  2:{ intros Heq. rewrite <- H1. unfold signature_to_elements. now rewrite Heq. }
  intros H2.
  change (signature_text s2 = signature_text s1).
  rewrite (signature_text_rebuild s1), (signature_text_rebuild s2).
  rewrite signature_to_elements_assemble in H1, H2.
  unfold assemble in H1, H2. cbv zeta in H1, H2.
  fold (signature_class_name s1) in H1. fold (signature_class_name s2) in H2.
  set (p1 := removelast (PyStr.split "/" (hd EmptyString (signature_parts s1)))) in *.
  set (p2 := removelast (PyStr.split "/" (hd EmptyString (signature_parts s2)))) in *.
  destruct (is_wildcard (signature_class_name s1)) eqn:W1;
    destruct (is_wildcard (signature_class_name s2)) eqn:W2.
  - destruct (signature_member s1) as [|m1 ms1]; [|discriminate].
    destruct (signature_member s2) as [|m2 ms2]; [|discriminate].
    apply Return_inj in H1, H2. subst elements.
    apply app_inj_tail in H2. destruct H2 as [Hp ->].
    apply map_append_inj in Hp. now rewrite Hp.
  - exfalso. destruct (signature_member s1) as [|m1 ms1]; [|discriminate].
    apply Return_inj in H1, H2. subst elements.
    assert (Hl : is_wildcard (last (map (append "package:") p1 ++ [signature_class_name s1])
                                EmptyString) = false).
    { rewrite <- H2. apply tagged_last_not_wildcard, split_from_not_nil. }
    rewrite last_last in Hl. congruence.
  - exfalso. destruct (signature_member s2) as [|m2 ms2]; [|discriminate].
    apply Return_inj in H1, H2. subst elements.
    assert (Hl : is_wildcard (last (map (append "package:") p2 ++ [signature_class_name s2])
                                EmptyString) = false).
    { rewrite H2. apply tagged_last_not_wildcard, split_from_not_nil. }
    rewrite last_last in Hl. congruence.
  - apply Return_inj in H1, H2. subst elements.
    apply (tagged_app_inj (PyStr.startswith "package:")) in H2.
    + destruct H2 as [Hp H2]. apply map_append_inj in Hp.
      apply (tagged_app_inj (PyStr.startswith "class:")) in H2.
      * destruct H2 as [Hc Hm]. apply map_append_inj in Hc, Hm.
        rewrite Hp, Hm.
        rewrite <- (join_split "$" (signature_class_name s1)) by discriminate.
        rewrite <- (join_split "$" (signature_class_name s2)) by discriminate.
        now rewrite Hc.
      * apply tagged_Forall. apply class_is_class.
      * apply tagged_Forall. apply class_is_class.
      * intros x rest H. destruct (signature_member s2); [discriminate|].
        now injection H as <- _.
      * intros x rest H. destruct (signature_member s1); [discriminate|].
        now injection H as <- _.
    + apply tagged_Forall. apply package_is_package.
    + apply tagged_Forall. apply package_is_package.
    + intros x rest H.
      pose proof (split_from_not_nil "$" (signature_class_name s2) 0) as Hne.
      fold (PyStr.split "$" (signature_class_name s2)) in Hne.
      destruct (PyStr.split "$" (signature_class_name s2)); [now elim Hne|].
      now injection H as <- _.
    + intros x rest H.
      pose proof (split_from_not_nil "$" (signature_class_name s1) 0) as Hne.
      fold (PyStr.split "$" (signature_class_name s1)) in Hne.
      destruct (PyStr.split "$" (signature_class_name s1)); [now elim Hne|].
      now injection H as <- _.
Qed.

(** ** Members are leaves *)

Lemma well_tagged_leaf_key p :
  forall n m,
    well_tagged n = true -> deref n p = Some m -> p <> [] ->
    is_leaf m = true ->
    PyStr.startswith "member:" (last p EmptyString) = true.
Proof.
  induction p as [|k p' IH]; intros n m Hw Hd Hne Hm; [now elim Hne|].
  cbn [deref] in Hd. destruct n as [nodes|x]; [|discriminate].
  destruct (dict_get nodes k) as [c|] eqn:Ek; [|discriminate].
  rewrite well_tagged_interior, forallb_forall in Hw.
  specialize (Hw _ (dict_get_In _ _ _ Ek)).
  unfold tagged_item in Hw. cbn [fst snd] in Hw.
  apply andb_true_iff in Hw. destruct Hw as [Hk Hc].
  destruct p' as [|k' p''].
  - injection Hd as ->. simpl. rewrite Hm in Hk. exact Hk.
  - change (last (k :: k' :: p'') EmptyString) with (last (k' :: p'') EmptyString).
    eapply IH; eauto. discriminate.
Qed.

Lemma strictly_tagged_member_key p :
  forall n m,
    strictly_tagged n = true -> deref n p = Some m -> p <> [] ->
    PyStr.startswith "member:" (last p EmptyString) = true ->
    is_leaf m = true.
Proof.
  induction p as [|k p' IH]; intros n m Hs Hd Hne Hl; [now elim Hne|].
  cbn [deref] in Hd. destruct n as [nodes|x]; [|discriminate].
  destruct (dict_get nodes k) as [c|] eqn:Ek; [|discriminate].
  rewrite strictly_tagged_interior, forallb_forall in Hs.
  specialize (Hs _ (dict_get_In _ _ _ Ek)).
  unfold strict_item in Hs. cbn [fst snd] in Hs.
  apply andb_true_iff in Hs. destruct Hs as [Hk Hc].
  destruct p' as [|k' p''].
  - injection Hd as ->. simpl in Hl. rewrite Hl in Hk. now destruct (is_leaf m).
  - change (last (k :: k' :: p'') EmptyString) with (last (k' :: p'') EmptyString) in Hl.
    eapply IH; eauto. discriminate.
Qed.

(** X16: in a trie built by [add] calls the root is an interior node and a
    leaf is only ever found under a key that starts with "member:"; as long
    as no signature had more than one ";->", the converse holds too: what
    is found under a member key is a leaf. *)
Theorem members_are_leaves calls :
  is_leaf (fst (add_all calls signature_trie)) = false /\
  (forall p m,
      deref (fst (add_all calls signature_trie)) p = Some m ->
      p <> [] -> is_leaf m = true ->
      PyStr.startswith "member:" (last p EmptyString) = true) /\
  (Forall one_separator calls ->
   forall p m,
     deref (fst (add_all calls signature_trie)) p = Some m ->
     p <> [] ->
     PyStr.startswith "member:" (last p EmptyString) = true ->
     is_leaf m = true).
Proof.
  split; [now rewrite add_all_kind|]. split.
  - intros p m. apply well_tagged_leaf_key. now apply add_all_well_tagged.
  - intros Hcalls p m. apply strictly_tagged_member_key. now apply add_all_strict.
Qed.

(** With leaves under member keys only, the walk for a signature ends on
    its leaf or finds a key missing. *)
Lemma find_rec_signature elements selector :
  forall n,
    strictly_tagged n = true -> is_leaf n = false ->
    elements <> [] ->
    Forall not_member (removelast elements) ->
    PyStr.startswith "member:" (last elements EmptyString) = true ->
    find_rec elements selector n = Return [] \/
    exists x, deref n elements = Some (Leaf x) /\
              find_rec elements selector n = Return [x].
Proof.
  induction elements as [|e rest IH]; intros n Hn Hk Hne Hf Hl; [now elim Hne|].
  destruct n as [nodes|y]; [|discriminate].
  cbn [find_rec deref].
  destruct (dict_get nodes e) as [c|] eqn:Ec; [|now left].
  rewrite strictly_tagged_interior, forallb_forall in Hn.
  specialize (Hn _ (dict_get_In _ _ _ Ec)).
  unfold strict_item in Hn. cbn [fst snd] in Hn.
  apply andb_true_iff in Hn. destruct Hn as [Hkc Hc].
  destruct rest as [|e' rest'].
  - simpl in Hl. rewrite Hl in Hkc.
    destruct c as [nodes'|x]; [discriminate|]. right. exists x. auto.
  - change (removelast (e :: e' :: rest')) with (e :: removelast (e' :: rest')) in Hf.
    change (last (e :: e' :: rest') EmptyString) with (last (e' :: rest') EmptyString) in Hl.
    inversion Hf as [|? ? He Hrest]; subst.
    unfold not_member in He. rewrite He in Hkc.
    apply IH; auto; [now destruct (is_leaf c) | discriminate].
Qed.

(** X17: as long as no signature has more than one ";->", looking up a
    full signature returns no value or one: the empty collection when no
    call with the same elements returned normally, and otherwise the value
    at its leaf. *)
Theorem signature_lookup_at_most_one calls signature elements :
  Forall one_separator calls ->
  signature_to_elements signature = Return elements ->
  length (signature_member signature) = 1%nat ->
  get_matching_rows signature (fst (add_all calls signature_trie)) =
  (fst (add_all calls signature_trie), Return []) \/
  exists s x,
    In (s, x) (snd (add_all calls signature_trie)) /\
    signature_to_elements s = Return elements /\
    get_matching_rows signature (fst (add_all calls signature_trie)) =
    (fst (add_all calls signature_trie), Return [x]).
Proof.
  intros Hcalls He Hlen. rewrite get_matching_rows_spec, He.
  assert (Hl : PyStr.startswith "member:" (last elements EmptyString) = true).
  { eapply member_part_last_member; eauto. intros H0. rewrite H0 in Hlen. discriminate. }
  rewrite (walk_elements_member _ Hl).
  destruct (find_rec_signature elements (pattern_selector elements)
              (fst (add_all calls signature_trie))) as [Hr|(x & Hd & Hr)].
  - now apply add_all_strict.
  - now rewrite add_all_kind.
  - eapply signature_to_elements_not_nil; eauto.
  - eapply one_separator_tags; eauto. lia.
  - exact Hl.
  - left. now rewrite Hr.
  - right. destruct (add_all_leaf_origin _ _ _ _ Hd) as [H|(s & Hin & Hs)].
    + now apply deref_empty_leaf in H.
    + exists s, x. rewrite Hr. auto.
Qed.

(** ** Nested classes *)

(** C6: "Lpkg/Outer$Inner;->m()V" decomposes with the inner class as an
    element of its own after the outer one; inserted into an empty trie it
    leaves the node of [Inner] as a child of the node of [Outer], inside
    the node of [pkg], and both "Lpkg/Outer" and "Lpkg/Outer$Inner" yield
    exactly its value; inserted into any trie, the node under [pkg] and
    [Outer] has the node of [Inner] as a child with the leaf in it,
    "Lpkg/Outer" returns exactly what is stored under the node of [Outer],
    "Lpkg/Outer$Inner" exactly what is stored under that of [Inner], and
    both hold the value; on a trie built by [add] calls the two patterns
    return, up to order, the values of the accepted signatures whose
    elements begin with those of the pattern; with a member of [Outer] and
    one of another class inserted as well, "Lpkg/Outer" yields the values
    of [Outer] and [Inner] only. *)
Theorem inner_class_nested_under_outer :
  signature_to_elements "Lpkg/Outer$Inner;->m()V" =
  Return ["package:pkg"; "class:Outer"; "class:Inner"; "member:m()V"] /\
  (forall v,
      let root := fst (add "Lpkg/Outer$Inner;->m()V" v signature_trie) in
      add "Lpkg/Outer$Inner;->m()V" v signature_trie =
      (InteriorNode
         [("package:pkg",
           InteriorNode
             [("class:Outer",
               InteriorNode
                 [("class:Inner", InteriorNode [("member:m()V", Leaf v)])])])],
       Return tt) /\
      get_matching_rows "Lpkg/Outer" root = (root, Return [v]) /\
      get_matching_rows "Lpkg/Outer$Inner" root = (root, Return [v])) /\
  (forall v root root',
      add "Lpkg/Outer$Inner;->m()V" v root = (root', Return tt) ->
      exists outer_nodes inner_nodes,
        deref root' ["package:pkg"; "class:Outer"] = Some (InteriorNode outer_nodes) /\
        dict_get outer_nodes "class:Inner" = Some (InteriorNode inner_nodes) /\
        dict_get inner_nodes "member:m()V" = Some (Leaf v) /\
        get_matching_rows "Lpkg/Outer" root' =
        (root', Return (concat (values (InteriorNode outer_nodes) (fun _ => true)))) /\
        In v (concat (values (InteriorNode outer_nodes) (fun _ => true))) /\
        get_matching_rows "Lpkg/Outer$Inner" root' =
        (root', Return (concat (values (InteriorNode inner_nodes) (fun _ => true)))) /\
        In v (concat (values (InteriorNode inner_nodes) (fun _ => true)))) /\
  (forall calls,
      let root := fst (add_all calls signature_trie) in
      let added := snd (add_all calls signature_trie) in
      exists outer inner,
        get_matching_rows "Lpkg/Outer" root = (root, Return outer) /\
        Permutation outer
          (map snd (filter (call_reached ["package:pkg"; "class:Outer"] select_all)
                      added)) /\
        get_matching_rows "Lpkg/Outer$Inner" root = (root, Return inner) /\
        Permutation inner
          (map snd
             (filter (call_reached ["package:pkg"; "class:Outer"; "class:Inner"]
                        select_all)
                added))) /\
  (forall v1 v2 v3,
      let root :=
        fst (add_all [("Lpkg/Outer$Inner;->m()V", v1); ("Lpkg/Outer;->f()V", v2);
                      ("Lpkg/Other;->g()V", v3)] signature_trie) in
      map snd (snd (add_all [("Lpkg/Outer$Inner;->m()V", v1); ("Lpkg/Outer;->f()V", v2);
                             ("Lpkg/Other;->g()V", v3)] signature_trie)) = [v1; v2; v3] /\
      get_matching_rows "Lpkg/Outer" root = (root, Return [v1; v2]) /\
      get_matching_rows "Lpkg/Outer$Inner" root = (root, Return [v1]) /\
      get_matching_rows "Lpkg/Other" root = (root, Return [v3])).
Proof.
  split; [reflexivity|]. split; [|split; [|split]].
  - intros v. repeat split.
  - intros v root root'. rewrite add_spec.
    change (signature_to_elements "Lpkg/Outer$Inner;->m()V") with
      (Return ["package:pkg"; "class:Outer"; "class:Inner"; "member:m()V"]).
    intros H.
    pose proof (insert_rec_deref _ _ _ _ H) as Hd.
    destruct (insert_rec_prefix_find v ["package:pkg"; "class:Outer"]
                ["class:Inner"; "member:m()V"] ltac:(discriminate) _ _ H)
      as (outer & Ho & Hino).
    destruct (insert_rec_prefix_find v ["package:pkg"; "class:Outer"; "class:Inner"]
                ["member:m()V"] ltac:(discriminate) _ _ H)
      as (inner & Hi & Hini).
    cbn [deref] in Hd.
    destruct root' as [nodes0|x0]; [|discriminate].
    destruct (dict_get nodes0 "package:pkg") as [[nodes1|x1]|] eqn:E1; try discriminate.
    destruct (dict_get nodes1 "class:Outer") as [[outer_nodes|x2]|] eqn:E2;
      try discriminate.
    destruct (dict_get outer_nodes "class:Inner") as [[inner_nodes|x3]|] eqn:E3;
      try discriminate.
    destruct (dict_get inner_nodes "member:m()V") as [leaf|] eqn:E4; [|discriminate].
    injection Hd as ->.
    assert (Hdo : deref (InteriorNode nodes0) ["package:pkg"; "class:Outer"] =
                  Some (InteriorNode outer_nodes)).
    { cbn [deref]. now rewrite E1, E2. }
    assert (Hdi : deref (InteriorNode nodes0)
                    ["package:pkg"; "class:Outer"; "class:Inner"] =
                  Some (InteriorNode inner_nodes)).
    { cbn [deref]. now rewrite E1, E2, E3. }
    rewrite (find_rec_deref _ select_all _ _ Hdo) in Ho.
    rewrite (find_rec_deref _ select_all _ _ Hdi) in Hi.
    injection Ho as <-. injection Hi as <-.
    exists outer_nodes, inner_nodes.
    rewrite !get_matching_rows_spec.
    change (signature_to_elements "Lpkg/Outer") with
      (Return ["package:pkg"; "class:Outer"]).
    change (signature_to_elements "Lpkg/Outer$Inner") with
      (Return ["package:pkg"; "class:Outer"; "class:Inner"]).
    cbv beta iota.
    change (walk_elements ["package:pkg"; "class:Outer"])
      with ["package:pkg"; "class:Outer"].
    change (walk_elements ["package:pkg"; "class:Outer"; "class:Inner"])
      with ["package:pkg"; "class:Outer"; "class:Inner"].
    change (pattern_selector ["package:pkg"; "class:Outer"]) with select_all.
    change (pattern_selector ["package:pkg"; "class:Outer"; "class:Inner"])
      with select_all.
    rewrite (find_rec_deref _ select_all _ _ Hdo).
    rewrite (find_rec_deref _ select_all _ _ Hdi).
    repeat split; auto.
  - intros calls root added.
    destruct (built_lookup calls "Lpkg/Outer" ["package:pkg"; "class:Outer"]
                eq_refl (le_0_n 1)) as (outer & Ho & Hpo).
    destruct (built_lookup calls "Lpkg/Outer$Inner"
                ["package:pkg"; "class:Outer"; "class:Inner"]
                eq_refl (le_0_n 1)) as (inner & Hi & Hpi).
    exists outer, inner. auto.
  - intros v1 v2 v3. repeat split.
Qed.

End Trie.

(** ** The class/member separator *)

(** Where the code and the split-once reading meet and where they part:
    [signature_to_elements] splits the text, once the leading "L" is
    stripped, at every occurrence of ";->": what precedes the first
    occurrence is the qualified class path, and each piece between the
    following occurrences becomes a member element of its own; when what
    follows the first occurrence holds no further ";->", it is carried as
    it is, as the one trailing member element, and the result is that of
    splitting once. *)
Theorem decomposer_splits_at_every_separator signature class_path remainder :
  PyStr.partition ";->" (PyStr.removeprefix "L" signature) = (class_path, remainder) ->
  signature_to_elements signature =
  assemble class_path
    (match remainder with Some m => PyStr.split ";->" m | None => [] end) /\
  (match remainder with
   | Some m => snd (PyStr.partition ";->" m) = None
   | None => True
   end ->
   signature_to_elements signature =
   assemble class_path (match remainder with Some m => [m] | None => [] end) /\
   signature_to_elements signature = decompose_split_once signature).
Proof.
  intros Hp.
  assert (Hparts : signature_parts signature =
                   class_path :: match remainder with
                                 | Some m => PyStr.split ";->" m
                                 | None => []
                                 end).
  { unfold signature_parts, signature_text.
    rewrite split_partition by discriminate. rewrite Hp. now destruct remainder. }
  assert (H1 : signature_to_elements signature =
               assemble class_path
                 (match remainder with Some m => PyStr.split ";->" m | None => [] end)).
  { rewrite signature_to_elements_assemble. unfold signature_member.
    now rewrite Hparts. }
  split; [exact H1|].
  intros Hm. unfold decompose_split_once. rewrite Hp, H1.
  destruct remainder as [m|]; [|now split].
  rewrite split_partition by discriminate.
  destruct (PyStr.partition ";->" m) as [before after] eqn:Em.
  simpl in Hm. subst after.
  assert (before = m) as ->; [|now split].
  clear -Em. revert before Em.
  induction m as [|c m' IH]; intros before; cbn [PyStr.partition].
  - destruct (PyStr.startswith ";->" EmptyString); now intros [= <-].
  - destruct (PyStr.startswith ";->" (String c m')); [discriminate|].
    destruct (PyStr.partition ";->" m') as [b [a|]]; [discriminate|].
    intros [= <-]. f_equal. now apply IH.
Qed.

(** C3: the code misses the claim at a second separator: the comment in
    [signature_to_elements] numbers two parts, class name and member
    signature, and its docstring speaks of the one member signature, yet at
    "La/B;->m;->n" the unlimited split yields two member elements where
    splitting once, as the claim has it, yields the single element
    "member:m;->n". *)
Theorem second_separator_is_split :
  signature_to_elements "La/B;->m;->n" =
  Return ["package:a"; "class:B"; "member:m"; "member:n"] /\
  decompose_split_once "La/B;->m;->n" =
  Return ["package:a"; "class:B"; "member:m;->n"] /\
  signature_to_elements "La/B;->m;->n" <> decompose_split_once "La/B;->m;->n".
Proof. repeat split. discriminate. Qed.

Lemma decomposer_splits_at_every_separator_witness :
  signature_to_elements "La/B;->m;->n" =
  assemble "a/B" (PyStr.split ";->" "m;->n") /\
  signature_to_elements "La/B;->m" = decompose_split_once "La/B;->m".
Proof.
  split.
  - exact (proj1 (decomposer_splits_at_every_separator
                    "La/B;->m;->n" "a/B" (Some "m;->n") eq_refl)).
  - exact (proj2 (proj2 (decomposer_splits_at_every_separator
                           "La/B;->m" "a/B" (Some "m") eq_refl) eq_refl)).
Defined.

(** ** The examples of the docstrings *)

Example split_pieces :
  PyStr.split ";->" "a;->;->b" = ["a"; EmptyString; "b"] /\
  PyStr.split "/" "/a//b/" = [EmptyString; "a"; EmptyString; "b"; EmptyString] /\
  PyStr.split "$" EmptyString = [EmptyString] /\
  PyStr.removeprefix "L" "LLa" = "La" /\
  PyStr.removeprefix "L" "a/L" = "a/L".
Proof. repeat split. Qed.

Example character_elements :
  signature_to_elements
    "Ljava/lang/Character$UnicodeScript;->of(I)Ljava/lang/Character$UnicodeScript;" =
  Return ["package:java"; "package:lang"; "class:Character"; "class:UnicodeScript";
          "member:of(I)Ljava/lang/Character$UnicodeScript;"].
Proof. reflexivity. Qed.

Example object_nodes :
  add nat "Ljava/lang/Object;->String()Ljava/lang/String;" 0 (signature_trie nat) =
  (InteriorNode nat
     [("package:java",
       InteriorNode nat
         [("package:lang",
           InteriorNode nat
             [("class:Object",
               InteriorNode nat
                 [("member:String()Ljava/lang/String;", Leaf nat 0)])])])],
   Return tt).
Proof. reflexivity. Qed.

Example wildcard_elements :
  signature_to_elements "Ljava/lang/*" = Return ["package:java"; "package:lang"; "*"] /\
  signature_to_elements "java/**" = Return ["package:java"; "**"] /\
  signature_to_elements "Ljava/lang/Object" =
  Return ["package:java"; "package:lang"; "class:Object"].
Proof. repeat split. Qed.

(** ** Examples on concrete tries *)

Lemma insert_then_exact_match_witness :
  get_matching_rows nat "La/B;->m" (example_trie nat 1) =
  (example_trie nat 1, Return [1]).
Proof.
  exact (insert_then_exact_match nat "La/B;->m" 1 (signature_trie nat)
           (example_trie nat 1) eq_refl).
Defined.

Lemma single_level_wildcard_excludes_subpackages_witness :
  get_matching_rows nat "La/*" (example_trie nat 1) = (example_trie nat 1, Return [1]) /\
  exists rows,
    get_matching_rows nat "La/*"
      (fst (add_all nat [("La/B;->m", 1); ("La/b/C;->n", 2)] (signature_trie nat))) =
    (fst (add_all nat [("La/B;->m", 1); ("La/b/C;->n", 2)] (signature_trie nat)),
     Return rows) /\
    Permutation rows [1].
Proof.
  split.
  - exact (proj1 (single_level_wildcard_excludes_subpackages nat)
             "La/*" ["package:a"] (example_trie nat 1)
             [("class:B", InteriorNode nat [("member:m", Leaf nat 1)])]
             eq_refl eq_refl).
  - exact (proj1 (proj2 (single_level_wildcard_excludes_subpackages nat))
             [("La/B;->m", 1); ("La/b/C;->n", 2)] "La/*" ["package:a"] eq_refl).
Defined.

(** C4 as worded fails: a call that fails for want of a member has already
    created the nodes for the elements before the last. *)
Lemma failed_add_leaves_nodes :
  add nat "La/B" 7 (signature_trie nat) =
  (InteriorNode nat [("package:a", InteriorNode nat [])],
   Raise InvalidMemberSignature) /\
  fst (add nat "La/B" 7 (signature_trie nat)) <> signature_trie nat.
Proof. split; [reflexivity | discriminate]. Qed.

Lemma failed_add_keeps_answers_witness :
  fst (add nat "a/B;->m" 2 (example_trie nat 1)) = example_trie nat 1 /\
  snd (get_matching_rows nat "La/**" (fst (add nat "La/C" 7 (example_trie nat 1)))) =
  snd (get_matching_rows nat "La/**" (example_trie nat 1)).
Proof.
  split.
  - apply (proj1 (failed_add_keeps_answers nat "a/B;->m" 2 (example_trie nat 1)
                    (fst (add nat "a/B;->m" 2 (example_trie nat 1)))
                    DuplicateSignature eq_refl)).
    discriminate.
  - exact (proj2 (failed_add_keeps_answers nat "La/C" 7 (example_trie nat 1)
                    (fst (add nat "La/C" 7 (example_trie nat 1)))
                    InvalidMemberSignature eq_refl)
             "La/**").
Defined.

Lemma duplicate_signature_rejected_witness :
  add nat "a/B;->m" 2 (example_trie nat 1) =
  (example_trie nat 1, Raise DuplicateSignature) /\
  get_matching_rows nat "La/B;->m" (example_trie nat 1) =
  (example_trie nat 1, Return [1]).
Proof.
  exact (duplicate_signature_rejected nat "La/B;->m" "a/B;->m" 1 2
           (signature_trie nat) (example_trie nat 1) eq_refl eq_refl).
Defined.

Lemma inner_class_nested_under_outer_witness :
  let root' := fst (add nat "Lpkg/Outer$Inner;->m()V" 5
                      (fst (add nat "Lpkg/Other;->f" 4 (signature_trie nat)))) in
  exists outer_nodes inner_nodes,
    deref nat root' ["package:pkg"; "class:Outer"] = Some (InteriorNode nat outer_nodes) /\
    dict_get nat outer_nodes "class:Inner" = Some (InteriorNode nat inner_nodes) /\
    dict_get nat inner_nodes "member:m()V" = Some (Leaf nat 5) /\
    get_matching_rows nat "Lpkg/Outer" root' =
    (root', Return (concat (values nat (InteriorNode nat outer_nodes) (fun _ => true)))) /\
    In 5 (concat (values nat (InteriorNode nat outer_nodes) (fun _ => true))) /\
    get_matching_rows nat "Lpkg/Outer$Inner" root' =
    (root', Return (concat (values nat (InteriorNode nat inner_nodes) (fun _ => true)))) /\
    In 5 (concat (values nat (InteriorNode nat inner_nodes) (fun _ => true))).
Proof.
  exact (proj1 (proj2 (proj2 (inner_class_nested_under_outer nat))) 5
           (fst (add nat "Lpkg/Other;->f" 4 (signature_trie nat))) _ eq_refl).
Defined.

Lemma malformed_pattern_condition_witness :
  (MalformedPattern = MalformedPattern /\
   is_wildcard (signature_class_name "Lpkg/*;->m()V") = true /\
   signature_member "Lpkg/*;->m()V" <> []) /\
  add nat "Lpkg/**;->m()V" 3 (example_trie nat 1) =
  (example_trie nat 1, Raise MalformedPattern) /\
  get_matching_rows nat "Lpkg/**;->m()V" (example_trie nat 1) =
  (example_trie nat 1, Raise MalformedPattern).
Proof.
  split.
  - exact (proj1 (proj1 (malformed_pattern_condition nat)
                    "Lpkg/*;->m()V" MalformedPattern) eq_refl).
  - exact (proj1 (proj2 (malformed_pattern_condition nat))
             "Lpkg/**;->m()V" MalformedPattern 3 (example_trie nat 1) eq_refl).
Defined.


(** A lookup with two separators walks on from a leaf and raises. *)
Example lookup_below_leaf_raises :
  get_matching_rows nat "La/B;->m;->n" (example_trie nat 1) =
  (example_trie nat 1, Raise AttributeError).
Proof. reflexivity. Qed.

(** ** The further properties on concrete inputs *)

Lemma last_element_classifies_witness :
  ["package:a"; "class:B"; "member:m"] <> [] /\
  (signature_member "La/*" = [] /\
   Forall (fun e => PyStr.startswith "package:" e = true)
     (removelast ["package:a"; "*"])) /\
  signature_member "La/B;->m" <> [] /\
  PyStr.startswith "class:" (last ["package:a"; "class:B"] EmptyString) = true.
Proof.
  split; [|split; [|split]].
  - exact (proj1 (last_element_classifies "La/B;->m"
                    ["package:a"; "class:B"; "member:m"] eq_refl)).
  - exact (proj1 (proj2 (last_element_classifies "La/*" ["package:a"; "*"] eq_refl))
             eq_refl).
  - exact (proj1 (proj1 (proj2 (proj2 (last_element_classifies "La/B;->m"
                    ["package:a"; "class:B"; "member:m"] eq_refl)))) eq_refl).
  - exact (proj2 (proj2 (proj2 (last_element_classifies "La/B"
                    ["package:a"; "class:B"] eq_refl))) eq_refl eq_refl).
Defined.

Lemma leading_marker_optional_witness :
  signature_to_elements "La/B;->m" = signature_to_elements "a/B;->m" /\
  add nat "La/B;->m" 1 (signature_trie nat) = add nat "a/B;->m" 1 (signature_trie nat) /\
  get_matching_rows nat "La/*" (example_trie nat 1) =
  get_matching_rows nat "a/*" (example_trie nat 1).
Proof.
  split; [|split].
  - exact (proj1 (leading_marker_optional nat "a/B;->m" eq_refl)).
  - exact (proj1 (proj2 (leading_marker_optional nat "a/B;->m" eq_refl))
             1 (signature_trie nat)).
  - exact (proj2 (proj2 (leading_marker_optional nat "a/*" eq_refl))
             (example_trie nat 1)).
Defined.

Lemma add_needs_member_witness :
  snd (add nat "La/B" 7 (example_trie nat 1)) <> Return tt /\
  snd (add nat "La/**" 7
         (fst (add_all nat [("La/B;->m", 1); ("Lc/D;->n", 2)] (signature_trie nat)))) =
  Raise InvalidMemberSignature.
Proof.
  split.
  - exact (proj1 (add_needs_member nat "La/B" 7 eq_refl) (example_trie nat 1)).
  - exact (proj2 (add_needs_member nat "La/**" 7 eq_refl)
             [("La/B;->m", 1); ("Lc/D;->n", 2)]).
Defined.

Lemma first_add_creates_path_witness :
  add nat "La/B$C;->m" 1 (signature_trie nat) =
  (path_nodes nat ["package:a"; "class:B"; "class:C"; "member:m"] 1, Return tt) /\
  add nat "La/b/C" 1 (signature_trie nat) =
  (empty_nodes nat ["package:a"; "package:b"], Raise InvalidMemberSignature).
Proof.
  split.
  - apply (proj1 (first_add_creates_path nat "La/B$C;->m"
                    ["package:a"; "class:B"; "class:C"; "member:m"] 1 eq_refl)).
    discriminate.
  - exact (proj2 (first_add_creates_path nat "La/b/C"
                    ["package:a"; "package:b"; "class:C"] 1 eq_refl) eq_refl).
Defined.

Lemma add_keeps_nodes_witness :
  exists m',
    deref nat (fst (add nat "La/B;->n" 2 (example_trie nat 1)))
      ["package:a"; "class:B"; "member:m"] = Some m' /\
    m' = Leaf nat 1.
Proof.
  exact (add_keeps_nodes nat "La/B;->n" 2 (example_trie nat 1)
           ["package:a"; "class:B"; "member:m"] (Leaf nat 1) eq_refl).
Defined.

Lemma add_extends_answers_witness :
  exists rows,
    get_matching_rows nat "La/*" (example_trie nat 1) =
    (example_trie nat 1, Return rows) /\
    Permutation [1; 2] ([2] ++ rows).
Proof.
  exact (add_extends_answers nat "La/B;->n" ["package:a"; "class:B"; "member:n"] 2
           (example_trie nat 1) (fst (add nat "La/B;->n" 2 (example_trie nat 1)))
           eq_refl eq_refl "La/*" ["package:a"; "*"] [1; 2] eq_refl eq_refl).
Defined.

Lemma lookup_returns_extensions_witness :
  exists rows,
    get_matching_rows nat "La/B"
      (fst (add_all nat [("La/B;->m", 1); ("La/C;->m", 2); ("La/B$D;->n", 3)]
              (signature_trie nat))) =
    (fst (add_all nat [("La/B;->m", 1); ("La/C;->m", 2); ("La/B$D;->n", 3)]
            (signature_trie nat)), Return rows) /\
    Permutation rows [1; 3].
Proof.
  destruct (lookup_returns_extensions nat
              [("La/B;->m", 1); ("La/C;->m", 2); ("La/B$D;->n", 3)]
              "La/B" ["package:a"; "class:B"] eq_refl (le_S 0 0 (le_n 0)))
    as (rows & Hrows & Hperm & _).
  - discriminate.
  - exists rows. split; [exact Hrows | exact Hperm].
Defined.

Lemma lookup_failures_witness :
  (MalformedPattern = MalformedPattern \/ MalformedPattern = AttributeError) /\
  snd (get_matching_rows nat "La/*;->m" (example_trie nat 1)) = Raise MalformedPattern /\
  snd (get_matching_rows nat "La/B;->m;->n" (example_trie nat 1)) = Raise AttributeError.
Proof.
  split; [|split].
  - exact (proj1 (proj2 (lookup_failures nat "La/*;->m" (example_trie nat 1)))
             MalformedPattern eq_refl).
  - exact (proj2 (proj1 (proj2 (proj2 (lookup_failures nat "La/*;->m"
                                         (example_trie nat 1))))) eq_refl).
  - apply (proj2 (proj2 (proj2 (proj2 (lookup_failures nat "La/B;->m;->n"
                                         (example_trie nat 1)))))).
    exists ["package:a"; "class:B"; "member:m"; "member:n"],
      ["package:a"; "class:B"; "member:m"], ["member:n"], 1.
    repeat split. discriminate.
Defined.

Lemma continuing_below_a_leaf_raises_witness :
  add nat "La/B;->m;->n" 2 (example_trie nat 1) =
  (example_trie nat 1, Raise AttributeError) /\
  get_matching_rows nat "La/B;->m;->n" (example_trie nat 1) =
  (example_trie nat 1, Raise AttributeError).
Proof.
  apply (continuing_below_a_leaf_raises nat "La/B;->m"
           ["package:a"; "class:B"; "member:m"] 1 (signature_trie nat)
           (example_trie nat 1) eq_refl eq_refl "La/B;->m;->n" ["member:n"] 2).
  - discriminate.
  - reflexivity.
Defined.

Lemma leaves_are_accepted_calls_witness :
  deref nat (fst (add_all nat [("La/B;->m", 1); ("La/B", 2)] (signature_trie nat)))
    ["package:a"; "class:B"; "member:m"] = Some (Leaf nat 1).
Proof.
  apply (proj2 (leaves_are_accepted_calls nat [("La/B;->m", 1); ("La/B", 2)]
                  ["package:a"; "class:B"; "member:m"] 1)).
  exists "La/B;->m". split; [now left | reflexivity].
Defined.

Lemma duplicates_detected_exactly_witness :
  snd (add nat "a/B;->m" 5
         (fst (add_all nat [("La/B;->m", 1); ("La/C;->m", 2)] (signature_trie nat)))) =
  Raise DuplicateSignature.
Proof.
  apply (proj2 (proj1 (duplicates_detected_exactly nat
                         [("La/B;->m", 1); ("La/C;->m", 2)] "a/B;->m"
                         ["package:a"; "class:B"; "member:m"] 5
                         ltac:(repeat constructor) eq_refl eq_refl))).
  exists "La/B;->m", 1. split; [now left | reflexivity].
Defined.

Lemma shorter_signature_reported_duplicate_witness :
  add nat "La/B;->m" 2 (fst (add nat "La/B;->m;->n" 1 (signature_trie nat))) =
  (fst (add nat "La/B;->m;->n" 1 (signature_trie nat)), Raise DuplicateSignature) /\
  exists rows,
    get_matching_rows nat "La/B;->m" (fst (add nat "La/B;->m;->n" 1 (signature_trie nat))) =
    (fst (add nat "La/B;->m;->n" 1 (signature_trie nat)), Return rows) /\
    In 1 rows.
Proof.
  apply (shorter_signature_reported_duplicate nat "La/B;->m;->n" "La/B;->m"
           ["package:a"; "class:B"; "member:m"] ["member:n"] 1 2
           (signature_trie nat) (fst (add nat "La/B;->m;->n" 1 (signature_trie nat)))
           eq_refl eq_refl).
  - discriminate.
  - reflexivity.
  - discriminate.
Defined.

Lemma decomposition_injective_witness :
  PyStr.removeprefix "L" "a/B;->m" = PyStr.removeprefix "L" "La/B;->m".
Proof.
  exact (proj1 (decomposition_injective "La/B;->m" "a/B;->m"
                  ["package:a"; "class:B"; "member:m"] eq_refl) eq_refl).
Defined.

Lemma members_are_leaves_witness :
  PyStr.startswith "member:"
    (last ["package:a"; "class:B"; "member:m"] EmptyString) = true /\
  is_leaf nat (Leaf nat 1) = true.
Proof.
  split.
  - exact (proj1 (proj2 (members_are_leaves nat [("La/B;->m", 1)]))
             ["package:a"; "class:B"; "member:m"] (Leaf nat 1) eq_refl
             ltac:(discriminate) eq_refl).
  - exact (proj2 (proj2 (members_are_leaves nat [("La/B;->m", 1)]))
             ltac:(repeat constructor)
             ["package:a"; "class:B"; "member:m"] (Leaf nat 1) eq_refl
             ltac:(discriminate) eq_refl).
Defined.

Lemma signature_lookup_at_most_one_witness :
  get_matching_rows nat "La/B;->m"
    (fst (add_all nat [("La/B;->m", 1); ("La/B;->m", 2)] (signature_trie nat))) =
  (fst (add_all nat [("La/B;->m", 1); ("La/B;->m", 2)] (signature_trie nat)),
   Return []) \/
  exists s x,
    In (s, x) (snd (add_all nat [("La/B;->m", 1); ("La/B;->m", 2)] (signature_trie nat))) /\
    signature_to_elements s = Return ["package:a"; "class:B"; "member:m"] /\
    get_matching_rows nat "La/B;->m"
      (fst (add_all nat [("La/B;->m", 1); ("La/B;->m", 2)] (signature_trie nat))) =
    (fst (add_all nat [("La/B;->m", 1); ("La/B;->m", 2)] (signature_trie nat)),
     Return [x]).
Proof.
  exact (signature_lookup_at_most_one nat [("La/B;->m", 1); ("La/B;->m", 2)]
           "La/B;->m" ["package:a"; "class:B"; "member:m"]
           ltac:(repeat constructor) eq_refl eq_refl).
Defined.
